(** * dynamodb_encryption_sdk.encrypted.resource

    A shallow embedding of [src/dynamodb_encryption_sdk/encrypted/resource.py]:
    the [EncryptedTablesCollectionManager] and [EncryptedResource] classes.

    Python objects that are shared and mutated live in explicit stores and are
    passed around as references: the [AttributeActions] objects, and the dicts
    of a write request that [batch_write_item] assigns into.  Everything the module
    only calls (the boto3 resource, the table-info cache, the item
    transforms, the argument validator) is a parameter of the development; every
    call to one of them is recorded in a trace, so that the order of the calls
    can be stated. *)

From stdpp Require Import gmap strings list fin_maps.

Set Default Proof Using "Type".

(** ** Exceptions and results *)

Inductive Exn : Type :=
| KeyError (key : string)
| AttributeError (name : string)
| TypeError (what : string)
| InvalidReference                      (* a reference to no object: never built by Python *)
| Raised (cls : string) (msg : string). (* whatever a collaborator raises *)

Inductive Res (A : Type) : Type :=
| Ok (a : A)
| Raise (e : Exn).
Arguments Ok {A} a.
Arguments Raise {A} e.

(** ** dynamodb_encryption_sdk.structures (not part of this module) *)

Inductive CryptoAction : Type := ENCRYPT_AND_SIGN | SIGN_ONLY | DO_NOTHING.

(** Modelled from the spec: the [AttributeActions] class of
    [dynamodb_encryption_sdk.structures], "mapping from attribute name to one
    of ENCRYPT_AND_SIGN, SIGN_ONLY, DO_NOTHING, plus a default action applied
    to unlisted attributes". *)
Record AttributeActions : Type := mkAttributeActions {
  default_action : CryptoAction;
  attribute_actions : gmap string CryptoAction
}.

(** Modelled from the spec: the action of one attribute, the listed one or
    else the default. *)
Definition action (aa : AttributeActions) (name : string) : CryptoAction :=
  default (default_action aa) (attribute_actions aa !! name).

(** Modelled from the spec: the in-place update behind
    [AttributeActions.set_index_keys], "force every attribute [...] to
    the unprotected action, overriding whatever the default specified for
    those names" (unprotected is DO_NOTHING). *)
Fixpoint set_index_keys_value (keys : list string) (aa : AttributeActions)
  : AttributeActions :=
  match keys with
  | [] => aa
  | key :: keys' =>
      set_index_keys_value keys'
        (mkAttributeActions (default_action aa)
                            (<[key := DO_NOTHING]> (attribute_actions aa)))
  end.

(** References to objects, and the store of the [AttributeActions] objects. *)
Definition ref : Type := positive.
Abbreviation Heap := (gmap positive AttributeActions).

Section Resource.

(** ** The collaborators *)

Context {MaterialsProvider Item GetSpec Opaque TableResource ContextValues Ext : Type}.

(** Modelled from the spec: [TableInfo], "per-table schema snapshot": the
    names read by this module. *)
Record TableInfo : Type := mkTableInfo {
  ti_name : string;
  protected_index_keys : list string;
  encryption_context_values : ContextValues
}.

Record EncryptionContext : Type := mkEncryptionContext {
  ec_values : ContextValues
}.

(** [CryptoConfig(materials_provider=, encryption_context=, attribute_actions=)];
    the attribute actions are held by reference. *)
Record CryptoConfig : Type := mkCryptoConfig {
  cc_materials_provider : MaterialsProvider;
  cc_encryption_context : EncryptionContext;
  cc_attribute_actions : ref
}.

(** A per-item write request is a dict from request type ('PutRequest',
    'DeleteRequest') to a body, itself a dict ('Item' or 'Key' to an item).
    Dicts that the code iterates over are kept as their list of entries, in
    iteration order; dicts that it only indexes are finite maps.  The bodies
    are the caller's objects and [batch_write_item] assigns into them: a
    request holds a reference to its body, and the bodies live in a store of
    their own, so that a body (or a request, or a list of requests) found at
    several places of a batch is one object. *)
Abbreviation Body := (gmap string Item).
Abbreviation Bodies := (gmap positive (gmap string Item)).
Abbreviation WriteRequest := (list (string * ref)).

(** The values found in keyword arguments and responses. *)
Inductive PyVal : Type :=
| VNone
| VCryptoConfig (c : CryptoConfig)
| VGetItems (r : list (string * GetSpec))           (* RequestItems of a batch get *)
| VWriteItems (r : list (string * list WriteRequest)) (* RequestItems of a batch write *)
| VResponses (r : list (string * list Item))         (* Responses of a batch get *)
| VTableInfo (t : TableInfo)
| VMaterialsProvider (m : MaterialsProvider)
| VAttributeActions (a : ref)
| VBool (b : bool)
| VOpaque (o : Opaque).

Abbreviation Kwargs := (gmap string PyVal).

Inductive Method : Type := m_all | m_filter | m_limit | m_page_size.

(** Calls made to the collaborators. *)
Inductive Event : Type :=
| EvTableInfo (name : string)                 (* TableInfoCache.table_info *)
| EvValidate (table_kwargs : GetSpec)         (* validate_get_arguments *)
| EvDecrypt (item : Item) (crypto_config : PyVal)
| EvEncrypt (item : Item) (crypto_config : PyVal)
| EvBatchGet (kwargs : Kwargs)                (* resource.batch_get_item *)
| EvBatchWrite (kwargs : Kwargs)              (* resource.batch_write_item *)
| EvTable (name : string)                     (* resource.Table *)
| EvCollection (method : Method) (kwargs : Kwargs) (* collection.all/filter/... *)
| EvNext (result : Res (option TableResource)). (* next() on the underlying iterable *)

Record World : Type := mkWorld {
  heap : Heap;        (* the AttributeActions objects *)
  bodies : Bodies;    (* the bodies of the write requests *)
  ext : Ext;          (* the state of the collaborators *)
  trace : list Event
}.

(** The boto3 service resource, [self._resource].  Its [batch_write_item]
    reads the bodies that the request refers to. *)
Variable resource_batch_get_item : Kwargs -> Ext -> Res Kwargs * Ext.
Variable resource_batch_write_item : Kwargs -> Bodies -> Ext -> Res PyVal * Ext.
Variable resource_Table : string -> TableResource.
Variable resource_name : TableResource -> string. (* [table.name] *)
Variable resource_getattr : string -> Res PyVal.

(** The table collection manager, [self._resource.tables]: a call of one of
    its methods gives an iterable, whose state is of type [Ext] too. *)
Variable TableIter : Type.
Variable collection_call : Method -> Kwargs -> Ext -> Res TableIter * Ext.
Variable iter_next :
  TableIter -> Ext -> Res (option (TableResource * TableIter)) * Ext.
Variable collection_getattr : string -> Res PyVal.

(** [TableInfoCache.table_info]: may fill the cache, may raise. *)
Variable cache_table_info : string -> Ext -> Res TableInfo * Ext.

(** [validate_get_arguments], [encrypt_python_item] and [decrypt_python_item]
    read their arguments (and the objects they refer to) and return or raise. *)
Variable validate_get_arguments : GetSpec -> Res unit.
Variable encrypt_python_item : Item -> PyVal -> Heap -> Res Item.
Variable decrypt_python_item : Item -> PyVal -> Heap -> Res Item.

(** ** A state and exception monad *)

Definition M (A : Type) : Type := World -> Res A * World.

Definition ret {A} (a : A) : M A := fun w => (Ok a, w).
Definition raise {A} (e : Exn) : M A := fun w => (Raise e, w).
Definition bind {A B} (m : M A) (k : A -> M B) : M B :=
  fun w => match m w with
           | (Ok a, w') => k a w'
           | (Raise e, w') => (Raise e, w')
           end.

Notation "'let!' x ':=' c1 'in' c2" := (bind c1 (fun x => c2))
  (at level 10, x name, c1 at level 200, c2 at level 200).

Definition emit (ev : Event) : M unit :=
  fun w => (Ok tt, mkWorld (heap w) (bodies w) (ext w) (trace w ++ [ev])).

(** A call to a stateful collaborator. *)
Definition call {A} (ev : Event) (f : Ext -> Res A * Ext) : M A :=
  fun w => let (r, x) := f (ext w) in
           (r, mkWorld (heap w) (bodies w) x (trace w ++ [ev])).

(** A call to a collaborator that only reads. *)
Definition call_pure {A} (ev : Event) (f : Heap -> Res A) : M A :=
  fun w => (f (heap w), mkWorld (heap w) (bodies w) (ext w) (trace w ++ [ev])).

Definition lift_option {A} (e : Exn) (o : option A) : M A :=
  match o with Some a => ret a | None => raise e end.

(** [for x in xs: ...], collecting what each round leaves in place of [x]. *)
Fixpoint for_each {A B} (f : A -> M B) (xs : list A) : M (list B) :=
  match xs with
  | [] => ret []
  | x :: xs' => let! y := f x in let! ys := for_each f xs' in ret (y :: ys)
  end.

(** ** The object stores *)

Definition load (l : ref) : M AttributeActions :=
  fun w => match heap w !! l with
           | Some aa => (Ok aa, w)
           | None => (Raise InvalidReference, w)
           end.

Definition store (l : ref) (aa : AttributeActions) : M unit :=
  fun w => (Ok tt, mkWorld (<[l := aa]> (heap w)) (bodies w) (ext w) (trace w)).

Definition new (aa : AttributeActions) : M ref :=
  fun w => let l := fresh (dom (heap w)) in
           (Ok l, mkWorld (<[l := aa]> (heap w)) (bodies w) (ext w) (trace w)).

(** The body a reference refers to.  Every reference of Python refers to
    an object: one that the store does not bind is an empty dict. *)
Definition body_of (st : Bodies) (b : ref) : Body := default ∅ (st !! b).

(** Reading a body and assigning into it go through the store. *)
Definition load_body (b : ref) : M Body :=
  fun w => (Ok (body_of (bodies w) b), w).

Definition store_body (b : ref) (body : Body) : M unit :=
  fun w => (Ok tt, mkWorld (heap w) (<[b := body]> (bodies w)) (ext w) (trace w)).

(** Modelled from the spec: [AttributeActions.copy()], "clone the default
    AttributeActions": a new object with the same content. *)
Definition copy (l : ref) : M ref :=
  let! aa := load l in
  new (mkAttributeActions (default_action aa) (attribute_actions aa)).

(** Modelled from the spec: [AttributeActions.set_index_keys], an update
    of the object itself. *)
Definition set_index_keys (l : ref) (keys : list string) : M unit :=
  let! aa := load l in
  store l (set_index_keys_value keys aa).

(** ** EncryptedResource *)

Record EncryptedResource : Type := mkEncryptedResource {
  _materials_provider : MaterialsProvider;
  _attribute_actions : ref;
  _auto_refresh_table_indexes : bool
}.

Definition table_info (name : string) : M TableInfo :=
  call (EvTableInfo name) (cache_table_info name).

(** [EncryptedResource._crypto_config(self, table_name)] *)
Definition _crypto_config (self : EncryptedResource) (table_name : string)
  : M CryptoConfig :=
  let! table_info := table_info table_name in
  let! attribute_actions := copy (_attribute_actions self) in
  let! _ := set_index_keys attribute_actions (protected_index_keys table_info) in
  ret (mkCryptoConfig
         (_materials_provider self)
         (mkEncryptionContext (encryption_context_values table_info))
         attribute_actions).

Definition is_not_None (v : PyVal) : bool :=
  match v with VNone => false | _ => true end.

(** [kwargs.pop('crypto_config', None)]: the value and what is left. *)
Definition pop_crypto_config (kwargs : Kwargs) : PyVal * Kwargs :=
  (default VNone (kwargs !! "crypto_config"), delete "crypto_config" kwargs).

(** The four lines shared by the two batch methods:
    [if request_crypto_config is not None: ... else: self._crypto_config(table_name)]. *)
Definition crypto_config_for (self : EncryptedResource)
    (request_crypto_config : PyVal) (table_name : string) : M PyVal :=
  if is_not_None request_crypto_config then ret request_crypto_config
  else let! c := _crypto_config self table_name in ret (VCryptoConfig c).

Definition validate (table_kwargs : GetSpec) : M unit :=
  call_pure (EvValidate table_kwargs) (fun _ => validate_get_arguments table_kwargs).

Definition decrypt (crypto_config : PyVal) (item : Item) : M Item :=
  call_pure (EvDecrypt item crypto_config) (decrypt_python_item item crypto_config).

Definition encrypt (crypto_config : PyVal) (item : Item) : M Item :=
  call_pure (EvEncrypt item crypto_config) (encrypt_python_item item crypto_config).

(** [kwargs['RequestItems'].items()] of a batch get. *)
Definition get_request_items (kwargs : Kwargs) : M (list (string * GetSpec)) :=
  match kwargs !! "RequestItems" with
  | None => raise (KeyError "RequestItems")
  | Some (VGetItems r) => ret r
  | Some _ => raise (TypeError "RequestItems")
  end.

(** [response['Responses'].items()] *)
Definition get_responses (response : Kwargs) : M (list (string * list Item)) :=
  match response !! "Responses" with
  | None => raise (KeyError "Responses")
  | Some (VResponses r) => ret r
  | Some _ => raise (TypeError "Responses")
  end.

(** The body of the loop over [response['Responses'].items()]. *)
Definition decrypt_table (self : EncryptedResource) (request_crypto_config : PyVal)
    (entry : string * list Item) : M (string * list Item) :=
  let! crypto_config := crypto_config_for self request_crypto_config entry.1 in
  let! items := for_each (decrypt crypto_config) entry.2 in
  ret (entry.1, items).

(** [EncryptedResource.batch_get_item(self, **kwargs)] *)
Definition batch_get_item (self : EncryptedResource) (kwargs : Kwargs) : M Kwargs :=
  let request_crypto_config := (pop_crypto_config kwargs).1 in
  let kwargs := (pop_crypto_config kwargs).2 in
  let! request_items := get_request_items kwargs in
  let! _ := for_each (fun entry => validate entry.2) request_items in
  let! response := call (EvBatchGet kwargs) (resource_batch_get_item kwargs) in
  let! responses := get_responses response in
  let! responses := for_each (decrypt_table self request_crypto_config) responses in
  ret (<["Responses" := VResponses responses]> response).

(** [kwargs['RequestItems'].items()] of a batch write. *)
Definition write_request_items (kwargs : Kwargs)
  : M (list (string * list WriteRequest)) :=
  match kwargs !! "RequestItems" with
  | None => raise (KeyError "RequestItems")
  | Some (VWriteItems r) => ret r
  | Some _ => raise (TypeError "RequestItems")
  end.

(** The body of [for request_type, item in items[pos].items()].  The object
    [items[pos][request_type]] is [item] itself, the body the entry refers
    to: [item['Item']] is read from it and the assignment
    [items[pos][request_type]['Item'] = ...] writes into it, whoever else
    holds it. *)
Definition encrypt_entry (crypto_config : PyVal) (entry : string * ref) : M unit :=
  if String.eqb entry.1 "PutRequest" then
    let! item := load_body entry.2 in
    let! payload := lift_option (KeyError "Item") (item !! "Item") in
    let! encrypted := encrypt crypto_config payload in
    store_body entry.2 (<["Item" := encrypted]> item)
  else ret tt.

(** The body of the loop over [kwargs['RequestItems'].items()]: nothing is
    rebuilt, the lists and the requests are only read. *)
Definition encrypt_table (self : EncryptedResource) (request_crypto_config : PyVal)
    (entry : string * list WriteRequest) : M unit :=
  let! crypto_config := crypto_config_for self request_crypto_config entry.1 in
  let! _ := for_each (for_each (encrypt_entry crypto_config)) entry.2 in
  ret tt.

(** [self._resource.batch_write_item] called with [kwargs]: it is given the
    caller's objects, as the loops have left them. *)
Definition send_batch_write (kwargs : Kwargs) : M PyVal :=
  fun w => call (EvBatchWrite kwargs) (resource_batch_write_item kwargs (bodies w)) w.

(** [EncryptedResource.batch_write_item(self, **kwargs)] *)
Definition batch_write_item (self : EncryptedResource) (kwargs : Kwargs) : M PyVal :=
  let request_crypto_config := (pop_crypto_config kwargs).1 in
  let kwargs := (pop_crypto_config kwargs).2 in
  let! request_items := write_request_items kwargs in
  let! _ := for_each (encrypt_table self request_crypto_config) request_items in
  send_batch_write kwargs.

(** Modelled from the spec: [EncryptedTable], the "single-table facade"
    of the sibling module, as the keyword arguments it is built from. *)
Record EncryptedTable : Type := mkEncryptedTable {
  et_table : TableResource;
  et_materials_provider : PyVal;
  et_attribute_actions : PyVal;
  et_auto_refresh_table_indexes : option PyVal;
  et_table_info : TableInfo
}.

(** [dict.get(key, default)] *)
Definition kwargs_get (kwargs : Kwargs) (key : string) (dflt : PyVal) : PyVal :=
  default dflt (kwargs !! key).

(** [EncryptedResource.Table(self, name, **kwargs)] *)
Definition Table (self : EncryptedResource) (name : string) (kwargs : Kwargs)
  : M EncryptedTable :=
  let! table := (let! _ := emit (EvTable name) in ret (resource_Table name)) in
  let materials_provider :=
    kwargs_get kwargs "materials_provider"
               (VMaterialsProvider (_materials_provider self)) in
  let attribute_actions :=
    kwargs_get kwargs "attribute_actions"
               (VAttributeActions (_attribute_actions self)) in
  let auto_refresh_table_indexes :=
    kwargs_get kwargs "auto_refresh_table_indexes"
               (VBool (_auto_refresh_table_indexes self)) in
  let! table_info := table_info name in
  ret (mkEncryptedTable table materials_provider attribute_actions
                        (Some auto_refresh_table_indexes) table_info).

(** ** Attribute access *)

(** What an attribute access on a facade gives: one of the facade's own
    members, or a value of the wrapped object. *)
Inductive Attr : Type :=
| Own (name : string)
| Wrapped (v : PyVal).

(** The names set on an [EncryptedResource] by [attrs] and
    [__attrs_post_init__] and those defined in its class body. *)
Definition EncryptedResource_names : list string :=
  ["_resource"; "_materials_provider"; "_attribute_actions";
   "_auto_refresh_table_indexes"; "_table_info_cache"; "tables";
   "__attrs_post_init__"; "__getattr__"; "_crypto_config";
   "batch_get_item"; "batch_write_item"; "Table"].

Definition EncryptedTablesCollectionManager_names : list string :=
  ["_collection"; "_materials_provider"; "_attribute_actions";
   "_table_info_cache"; "__getattr__"; "_transform_table";
   "all"; "filter"; "limit"; "page_size"].

(** The names every instance of an [attrs] class has besides ([__class__],
    [__init__], [__repr__], ...). *)
Variable object_names : list string.

(** [EncryptedResource.__getattr__(self, name)] *)
Definition EncryptedResource__getattr__ (name : string) : Res PyVal :=
  resource_getattr name.

(** [EncryptedTablesCollectionManager.__getattr__(self, name)] *)
Definition EncryptedTablesCollectionManager__getattr__ (name : string) : Res PyVal :=
  collection_getattr name.

(** Python's attribute access: [__getattr__] is called only when the name is
    found neither on the instance nor on its class. *)
Definition getattribute (names : list string) (getattr_hook : string -> Res PyVal)
    (name : string) : Res Attr :=
  if bool_decide (name ∈ names ++ object_names) then Ok (Own name)
  else match getattr_hook name with
       | Ok v => Ok (Wrapped v)
       | Raise e => Raise e
       end.

Definition EncryptedResource_getattribute : string -> Res Attr :=
  getattribute EncryptedResource_names EncryptedResource__getattr__.

Definition EncryptedTablesCollectionManager_getattribute : string -> Res Attr :=
  getattribute EncryptedTablesCollectionManager_names
               EncryptedTablesCollectionManager__getattr__.

(** ** EncryptedTablesCollectionManager *)

Record EncryptedTablesCollectionManager : Type := mkEncryptedTablesCollectionManager {
  tcm_materials_provider : MaterialsProvider;
  tcm_attribute_actions : ref
}.

(** [EncryptedResource.__attrs_post_init__]: the [tables] attribute shares the
    resource's provider and its [AttributeActions] object. *)
Definition tables (self : EncryptedResource) : EncryptedTablesCollectionManager :=
  mkEncryptedTablesCollectionManager (_materials_provider self)
                                     (_attribute_actions self).

(** A generator object of [_transform_table]: not started yet (nothing of the
    body has run), suspended at the [yield] (holding the underlying iterator),
    or finished. *)
Inductive Generator : Type :=
| GenCreated (method : Method) (kwargs : Kwargs)
| GenSuspended (it : TableIter)
| GenFinished.

(** One round of [for table in ...: yield EncryptedTable(...)], from the
    [next()] on the underlying iterator to the [yield]. *)
Definition next_table (it : TableIter) : M (option (TableResource * TableIter)) :=
  fun w =>
    let (r, x) := iter_next it (ext w) in
    let seen := match r with
                | Ok o => Ok (fst <$> o)
                | Raise e => Raise e
                end in
    (r, mkWorld (heap w) (bodies w) x (trace w ++ [EvNext seen])).

Definition round (self : EncryptedTablesCollectionManager) (it : TableIter)
  : M (option (EncryptedTable * TableIter)) :=
  let! r := next_table it in
  match r with
  | None => ret None
  | Some (table, it') =>
      let! table_info := table_info (resource_name table) in
      ret (Some (mkEncryptedTable
                   table
                   (VMaterialsProvider (tcm_materials_provider self))
                   (VAttributeActions (tcm_attribute_actions self))
                   None
                   table_info, it'))
  end.

(** What [next(generator)] gives: a value, [StopIteration], or the exception
    that escaped the generator's body. *)
Inductive Step (A : Type) : Type :=
| Yield (a : A)
| StopIteration
| Escaped (e : Exn).
Arguments Yield {A} a.
Arguments StopIteration {A}.
Arguments Escaped {A} e.

Definition settle (r : Res (option (EncryptedTable * TableIter)) * World)
  : Step EncryptedTable * Generator * World :=
  match r with
  | (Ok (Some (t, it)), w) => (Yield t, GenSuspended it, w)
  | (Ok None, w) => (StopIteration, GenFinished, w)
  | (Raise e, w) => (Escaped e, GenFinished, w)
  end.

(** [next()] on a generator of [_transform_table]. *)
Definition next (self : EncryptedTablesCollectionManager) (g : Generator) (w : World)
  : Step EncryptedTable * Generator * World :=
  match g with
  | GenCreated method kwargs =>
      settle ((let! it := call (EvCollection method kwargs)
                               (collection_call method kwargs) in
               round self it) w)
  | GenSuspended it => settle (round self it w)
  | GenFinished => (StopIteration, GenFinished, w)
  end.

(** Python binds the arguments of a call before it runs anything of the
    function: a keyword that names one of the positional parameters
    [params], which the call already fills, is a [TypeError] ("got multiple
    values for argument"). *)
Definition bind_arguments (params : list string) (kwargs : Kwargs) : Res unit :=
  match filter (fun param => is_Some (kwargs !! param)) params with
  | [] => Ok tt
  | param :: _ => Raise (TypeError param)
  end.

(** [EncryptedTablesCollectionManager._transform_table(self, method, **kwargs)]:
    once the arguments are bound, calling a generator function runs nothing
    of its body. *)
Definition _transform_table (self : EncryptedTablesCollectionManager)
    (method : Method) (kwargs : Kwargs) : Res Generator :=
  match bind_arguments ["self"; "method"] kwargs with
  | Ok _ => Ok (GenCreated method kwargs)
  | Raise e => Raise e
  end.

(** [all(self)], and [filter], [limit] and [page_size], each [(self, **kwargs)]. *)
Definition tables_all (self : EncryptedTablesCollectionManager) : Res Generator :=
  _transform_table self m_all ∅.

Definition tables_filter (self : EncryptedTablesCollectionManager) (kwargs : Kwargs)
  : Res Generator :=
  match bind_arguments ["self"] kwargs with
  | Ok _ => _transform_table self m_filter kwargs
  | Raise e => Raise e
  end.

Definition tables_limit (self : EncryptedTablesCollectionManager) (kwargs : Kwargs)
  : Res Generator :=
  match bind_arguments ["self"] kwargs with
  | Ok _ => _transform_table self m_limit kwargs
  | Raise e => Raise e
  end.

Definition tables_page_size (self : EncryptedTablesCollectionManager) (kwargs : Kwargs)
  : Res Generator :=
  match bind_arguments ["self"] kwargs with
  | Ok _ => _transform_table self m_page_size kwargs
  | Raise e => Raise e
  end.

(** How an iteration of at most [n] elements ends. *)
Inductive Ending : Type :=
| Exhausted            (* StopIteration *)
| Failed (e : Exn)
| Pending.             (* [n] elements taken, the generator may have more *)

(** [itertools.islice(generator, n)] run to its end: the elements, how it
    ended, and the generator afterwards. *)
Fixpoint take_n (self : EncryptedTablesCollectionManager) (n : nat)
    (g : Generator) (w : World)
  : list EncryptedTable * Ending * Generator * World :=
  match n with
  | O => ([], Pending, g, w)
  | S n' =>
      match next self g w with
      | (Yield t, g', w') =>
          let '(ts, e, g'', w'') := take_n self n' g' w' in
          (t :: ts, e, g'', w'')
      | (StopIteration, g', w') => ([], Exhausted, g', w')
      | (Escaped e, g', w') => ([], Failed e, g', w')
      end
  end.

(** A caller resolving a configuration for each of [names] in turn, going on
    whatever each call gives (a configuration or an exception). *)
Fixpoint resolve_each (self : EncryptedResource) (names : list string) (w : World)
  : World :=
  match names with
  | [] => w
  | name :: names' => resolve_each self names' (_crypto_config self name w).2
  end.

(** The events a run from [w] to [w'] has added to the trace. *)
Definition new_events (w w' : World) : list Event :=
  drop (length (trace w)) (trace w').

(** ** What the batch methods are expected to do to the items *)

(** The configuration (and the object store it is read in) that transforms
    the items of table [name]: the one of the request when there is one, in
    the store [h0] of the call, else the one [_crypto_config] gives for
    [name], in the store this leaves. *)
Definition config_used (self : EncryptedResource) (request_crypto_config : PyVal)
    (h0 : Heap) (name : string) (cfg : PyVal) (h : Heap) : Prop :=
  if is_not_None request_crypto_config
  then cfg = request_crypto_config /\ h = h0
  else exists w c w1,
      _crypto_config self name w = (Ok c, w1) /\ cfg = VCryptoConfig c /\ h = heap w1.

(** The items of one table of a response, each replaced by its decryption. *)
Definition decrypted_table (self : EncryptedResource) (request_crypto_config : PyVal)
    (h0 : Heap) (entry entry' : string * list Item) : Prop :=
  entry'.1 = entry.1 /\
  exists cfg h,
    config_used self request_crypto_config h0 entry.1 cfg h /\
    Forall2 (fun item item' => decrypt_python_item item cfg h = Ok item')
            entry.2 entry'.2.

(** The bodies that [batch_write_item] assigns into, in the order in which
    it visits them: those held under 'PutRequest' (a body held twice is
    listed twice). *)
Definition entry_put_refs (entry : string * ref) : list ref :=
  if String.eqb entry.1 "PutRequest" then [entry.2] else [].

Definition request_put_refs (req : WriteRequest) : list ref :=
  req ≫= entry_put_refs.

Definition table_put_refs (entry : string * list WriteRequest) : list ref :=
  entry.2 ≫= request_put_refs.

Definition put_refs (tables : list (string * list WriteRequest)) : list ref :=
  tables ≫= table_put_refs.

(** A batch in which every body held under 'PutRequest' is held there once
    and nowhere else: no body, request or list of requests with a PUT is
    found at two places. *)
Definition held_once (tables : list (string * list WriteRequest)) : Prop :=
  NoDup (put_refs tables) /\
  forall name reqs req request_type b,
    (name, reqs) ∈ tables -> req ∈ reqs -> (request_type, b) ∈ req ->
    request_type ≠ "PutRequest" -> b ∉ put_refs tables.

(** The part of [batch_get_item] that follows the remote call. *)
Definition after_get (self : EncryptedResource) (request_crypto_config : PyVal)
    (response : Kwargs) : M Kwargs :=
  let! responses := get_responses response in
  let! responses := for_each (decrypt_table self request_crypto_config) responses in
  ret (<["Responses" := VResponses responses]> response).

Definition is_batch_get (ev : Event) : Prop :=
  match ev with EvBatchGet _ => True | _ => False end.

Definition is_batch_write (ev : Event) : Prop :=
  match ev with EvBatchWrite _ => True | _ => False end.

Definition is_validate (ev : Event) : Prop :=
  match ev with EvValidate _ => True | _ => False end.

(** The events of a call that was given the configuration [v]: no cache
    lookup, every transform done with [v], and [crypto_config] absent from
    what the boto3 resource is called with. *)
Definition override_event (v : PyVal) (ev : Event) : Prop :=
  match ev with
  | EvTableInfo _ => False
  | EvDecrypt _ c | EvEncrypt _ c => c = v
  | EvBatchGet kw | EvBatchWrite kw => kw !! "crypto_config" = None
  | _ => True
  end.

(** The payloads of the PUT requests of a batch write, as the call finds
    them. *)
Definition put_item (w : World) (tables : list (string * list WriteRequest))
    (item : Item) : Prop :=
  exists name reqs req b,
    (name, reqs) ∈ tables /\ req ∈ reqs /\ ("PutRequest", b) ∈ req /\
    body_of (bodies w) b !! "Item" = Some item.

(** ** What an enumeration of the wrapped tables is expected to do *)

Definition is_collection (ev : Event) : Prop :=
  match ev with EvCollection _ _ => True | _ => False end.

(** The results of the [next()] calls made on the underlying iterable. *)
Definition underlying_nexts (evs : list Event) : list (Res (option TableResource)) :=
  omap (fun ev => match ev with EvNext r => Some r | _ => None end) evs.

(** The tables the underlying iterable gave, in the order it gave them. *)
Definition underlying_tables (evs : list Event) : list TableResource :=
  omap (fun ev => match ev with EvNext (Ok (Some t)) => Some t | _ => None end) evs.

(** A table of the underlying collection wrapped with the manager's
    provider and attribute actions and the cache's answer for its name. *)
Definition wrapped_by (self : EncryptedTablesCollectionManager) (t : EncryptedTable)
  : Prop :=
  et_materials_provider t = VMaterialsProvider (tcm_materials_provider self) /\
  et_attribute_actions t = VAttributeActions (tcm_attribute_actions self).

(** What the events [evs] of taking at most [n] elements, giving [ts] and
    ending with [e], have to be for the wrapped sequence to follow the
    underlying one: no underlying call to one of the collection's methods,
    no more [next()] on the underlying iterable than elements asked for, the
    tables given by the underlying iterable wrapped one by one in the same
    order, and an end exactly when the underlying iterable ends. *)
Definition follows_underlying (self : EncryptedTablesCollectionManager) (n : nat)
    (ts : list EncryptedTable) (e : Ending) (evs : list Event) : Prop :=
  Forall (fun ev => ¬ is_collection ev) evs /\
  length (underlying_nexts evs) <= n /\
  (exists extra,
     underlying_tables evs = map et_table ts ++ extra /\
     ((forall err, e ≠ Failed err) -> extra = [])) /\
  (e = Exhausted <-> EvNext (Ok None) ∈ evs) /\
  (e = Pending -> length ts = n) /\
  Forall (wrapped_by self) ts.

(** Why an enumeration that ends in [w'], with the events [rest] after the
    call of the collection's method, may end with the exception [err] once
    that call has returned: a collaborator has raised it, in the last call
    made.  That call is a [next()] on the underlying iterable, or the lookup
    of the table-info cache for the table that the iterable has just given. *)
Definition iteration_failure (w' : World) (rest : list Event) (err : Exn) : Prop :=
  (exists pre it x,
     rest = pre ++ [EvNext (Raise err)] /\
     iter_next it x = (Raise err, ext w')) \/
  (exists pre t it it' x0 x,
     rest = pre ++ [EvNext (Ok (Some t)); EvTableInfo (resource_name t)] /\
     iter_next it x0 = (Ok (Some (t, it')), x) /\
     cache_table_info (resource_name t) x = (Raise err, ext w')).

(** Why an enumeration from [w] to [w'] may end with the exception [err]:
    the call of the collection's [method] has raised it, or the iteration
    has failed with it. *)
Definition failure_cause (method : Method) (kwargs : Kwargs) (w w' : World)
    (rest : list Event) (err : Exn) : Prop :=
  (rest = [] /\ collection_call method kwargs (ext w) = (Raise err, ext w')) \/
  iteration_failure w' rest err.

(** A generator obtained by calling one of the manager's methods: each
    enumeration of it first calls the collection's [method] with [kwargs],
    then follows the iterable this gives, and fails only when a collaborator
    fails, with its exception; nothing is called before the first element is
    asked for; and a second enumeration calls [method] again. *)
Definition lazy_restartable (self : EncryptedTablesCollectionManager)
    (g : Generator) (method : Method) (kwargs : Kwargs) : Prop :=
  (forall w, take_n self 0 g w = ([], Pending, g, w)) /\
  (forall n w ts e g' w',
     take_n self (S n) g w = (ts, e, g', w') ->
     exists rest,
       new_events w w' = EvCollection method kwargs :: rest /\
       follows_underlying self (S n) ts e rest /\
       (forall err, EvNext (Raise err) ∈ rest -> e = Failed err) /\
       (forall err, e = Failed err -> failure_cause method kwargs w w' rest err)) /\
  (forall n1 n2 w,
     let w1 := (take_n self (S n1) g w).2 in
     let w2 := (take_n self (S n2) g w1).2 in
     exists rest1 rest2,
       new_events w w2
       = EvCollection method kwargs :: rest1 ++ EvCollection method kwargs :: rest2 /\
       Forall (fun ev => ¬ is_collection ev) rest1 /\
       Forall (fun ev => ¬ is_collection ev) rest2).

(** ** Runs and what they change *)

(** [stable R m]: every run of [m] takes a world to one related to it by
    [R], whether it returns or raises. *)
Definition stable {A} (R : relation World) (m : M A) : Prop :=
  forall w, R w (m w).2.

(** The run only adds events that satisfy [P]. *)
Definition adds (P : Event -> Prop) : relation World :=
  fun w w' => exists evs, trace w' = trace w ++ evs /\ Forall P evs.

(** The run changes neither the [AttributeActions] objects nor the
    collaborators' state. *)
Definition reads_only : relation World :=
  fun w w' => heap w' = heap w /\ ext w' = ext w.

(** The run leaves the [AttributeActions] objects alone. *)
Definition same_heap : relation World :=
  fun w w' => heap w' = heap w.

(** The run leaves the bodies of the write requests alone. *)
Definition same_bodies : relation World :=
  fun w w' => bodies w' = bodies w.

(** The run assigns into no body but those of [S]. *)
Definition modifies (S : list ref) : relation World :=
  fun w w' => forall b, b ∉ S -> body_of (bodies w') b = body_of (bodies w) b.

(** After the run, a body that had an 'Item' is as it was, or
    [encrypt_python_item] has been called on that item since and has
    returned. *)
Definition tracks : relation World :=
  fun w w' =>
    adds (fun _ => True) w w' /\
    forall b item,
      body_of (bodies w) b !! "Item" = Some item ->
      body_of (bodies w') b = body_of (bodies w) b \/
      exists cfg h encrypted,
        encrypt_python_item item cfg h = Ok encrypted /\
        EvEncrypt item cfg ∈ new_events w w'.

(** A body without 'Item' stays as it is. *)
Definition keeps_itemless : relation World :=
  fun w w' => forall b,
    body_of (bodies w) b !! "Item" = None ->
    body_of (bodies w') b = body_of (bodies w) b.

(** The run is one of a call that resolves its configurations as the batch
    methods do: given a [crypto_config], it leaves the object store alone. *)
Definition same_heap_if_given (request_crypto_config : PyVal) : relation World :=
  fun w w' => request_crypto_config ≠ VNone -> heap w' = heap w.

(** Both of two relations. *)
Definition both (R1 R2 : relation World) : relation World :=
  fun w w' => R1 w w' /\ R2 w w'.

Ltac not_collection :=
  repeat (apply Forall_cons; split; [by intros []|]); first [done | apply Forall_nil].

(** ** Further notions about the runs *)

(** The run modifies no [AttributeActions] object that the store already
    holds. *)
Definition keeps_objects : relation World :=
  fun w w' => forall l, is_Some (heap w !! l) -> heap w' !! l = heap w !! l.

(** The table names the table-info cache was asked for, in order. *)
Definition lookups (evs : list Event) : list string :=
  omap (fun ev => match ev with EvTableInfo name => Some name | _ => None end) evs.

Definition is_lookup (ev : Event) : Prop :=
  match ev with EvTableInfo _ => True | _ => False end.

Definition is_encrypt (ev : Event) : Prop :=
  match ev with EvEncrypt _ _ => True | _ => False end.

(** What the boto3 resource may be called with, given the keyword arguments
    [kwargs] of the call: these less [crypto_config]. *)
Definition forwards (kwargs : Kwargs) (ev : Event) : Prop :=
  match ev with
  | EvBatchGet kw | EvBatchWrite kw => kw = delete "crypto_config" kwargs
  | _ => True
  end.

(** A batch write without any PUT request. *)
Definition no_put (tables : list (string * list WriteRequest)) : Prop :=
  Forall (fun entry : string * list WriteRequest =>
            Forall (Forall (fun e : string * ref => e.1 ≠ "PutRequest")) entry.2)
         tables.

(** Every body held under 'PutRequest' has an 'Item'. *)
Definition puts_have_items (tables : list (string * list WriteRequest)) (w : World)
  : Prop :=
  forall b, b ∈ put_refs tables -> is_Some (body_of (bodies w) b !! "Item").

(** The configuration (and the object store it is read in) that a call
    made in [w] resolves for the table [name]: what [crypto_config_for] gives
    in a world where the objects that the call found are as it found them
    (and, given a [crypto_config], where the whole store is). *)
Definition config_of_call (self : EncryptedResource) (request_crypto_config : PyVal)
    (w : World) (name : string) (cfg : PyVal) (h : Heap) : Prop :=
  exists w0 w1,
    keeps_objects w w0 /\ same_heap_if_given request_crypto_config w w0 /\
    crypto_config_for self request_crypto_config name w0 = (Ok cfg, w1) /\
    h = heap w1.

(** What the boto3 resource is to be given for the batch [tables] of a call
    made in [w], if [w'] is the world in which it is called: the body of an
    entry other than 'PutRequest' is as the call found it, and the body of a
    'PutRequest' has its 'Item', and nothing else, replaced by the
    encryption of the item found, under the configuration of the table. *)
Definition puts_encrypted (self : EncryptedResource) (request_crypto_config : PyVal)
    (tables : list (string * list WriteRequest)) (w w' : World) : Prop :=
  forall name reqs req request_type b,
    (name, reqs) ∈ tables -> req ∈ reqs -> (request_type, b) ∈ req ->
    (request_type ≠ "PutRequest" ->
       body_of (bodies w') b = body_of (bodies w) b) /\
    (request_type = "PutRequest" ->
       exists item cfg h encrypted,
         body_of (bodies w) b !! "Item" = Some item /\
         config_of_call self request_crypto_config w name cfg h /\
         encrypt_python_item item cfg h = Ok encrypted /\
         body_of (bodies w') b = <["Item" := encrypted]> (body_of (bodies w) b)).

(** What the batch methods need of the store to resolve a configuration:
    the resource's default [AttributeActions], unless the call comes with a
    [crypto_config]. *)
Definition can_resolve (self : EncryptedResource) (rcc : PyVal) (w : World) : Prop :=
  is_not_None rcc = false -> is_Some (heap w !! _attribute_actions self).

(** A table of the collection as [_transform_table] builds it: the schema is
    the cache's answer for the name of the very table it wraps, and no
    [auto_refresh_table_indexes] is passed. *)
Definition schema_of_own_table (t : EncryptedTable) : Prop :=
  et_auto_refresh_table_indexes t = None /\
  exists x x',
    cache_table_info (resource_name (et_table t)) x = (Ok (et_table_info t), x').

(** * Properties *)

(** ** The monad *)

Lemma bind_Ok {A B} (m : M A) (k : A -> M B) w a w1 :
  m w = (Ok a, w1) -> bind m k w = k a w1.
Proof. intros H. unfold bind. by rewrite H. Qed.

Lemma bind_Raise {A B} (m : M A) (k : A -> M B) w e w1 :
  m w = (Raise e, w1) -> bind m k w = (Raise e, w1).
Proof. intros H. unfold bind. by rewrite H. Qed.

Lemma bind_inv_Ok {A B} (m : M A) (k : A -> M B) w b w' :
  bind m k w = (Ok b, w') -> exists a w1, m w = (Ok a, w1) /\ k a w1 = (Ok b, w').
Proof.
  unfold bind. destruct (m w) as [[a|e] w1]; [eauto | discriminate].
Qed.

Lemma stable_ret {A} (R : relation World) `{!Reflexive R} (a : A) :
  stable R (ret a).
Proof. intros w. simpl. reflexivity. Qed.

Lemma stable_raise {A} (R : relation World) `{!Reflexive R} (e : Exn) :
  stable R (@raise A e).
Proof. intros w. simpl. reflexivity. Qed.

Lemma stable_bind {A B} (R : relation World) `{!Transitive R}
    (m : M A) (k : A -> M B) :
  stable R m -> (forall a, stable R (k a)) -> stable R (bind m k).
Proof.
  intros Hm Hk w. unfold bind. specialize (Hm w).
  destruct (m w) as [[a|e] w1]; simpl in *; [|done].
  etransitivity; [exact Hm | apply Hk].
Qed.

Lemma stable_lift_option {A} (R : relation World) `{!Reflexive R} e (o : option A) :
  stable R (lift_option e o).
Proof. destruct o; [apply stable_ret | apply stable_raise]; done. Qed.

Lemma stable_for_each {A B} (R : relation World) `{!PreOrder R}
    (f : A -> M B) (xs : list A) :
  (forall x, x ∈ xs -> stable R (f x)) -> stable R (for_each f xs).
Proof.
  induction xs as [|x xs IH]; intros Hf; simpl.
  - apply stable_ret, _.
  - apply stable_bind; [apply _ | apply Hf; left |]. intros y.
    apply stable_bind; [apply _ | apply IH; intros; apply Hf; by right |].
    intros ys. apply stable_ret, _.
Qed.

#[local] Instance adds_preorder P : PreOrder (adds P).
Proof.
  split.
  - intros w. exists []. by rewrite app_nil_r.
  - intros w1 w2 w3 (e1 & H1 & P1) (e2 & H2 & P2). exists (e1 ++ e2).
    rewrite H2, H1, app_assoc. split; [done | by apply Forall_app].
Qed.

#[local] Instance reads_only_preorder : PreOrder reads_only.
Proof.
  split; [done|]. intros w1 w2 w3 [H1 H1'] [H2 H2']. split; congruence.
Qed.

#[local] Instance same_heap_preorder : PreOrder same_heap.
Proof. split; [done|]. intros w1 w2 w3 H1 H2. unfold same_heap in *. congruence. Qed.

Lemma adds_new_events P w w' :
  adds P w w' -> trace w' = trace w ++ new_events w w' /\ Forall P (new_events w w').
Proof.
  intros (evs & H & HP). unfold new_events.
  rewrite H, drop_app_length. done.
Qed.

Lemma adds_weaken (P Q : Event -> Prop) w w' :
  (forall ev, P ev -> Q ev) -> adds P w w' -> adds Q w w'.
Proof.
  intros HPQ (evs & H & HP). exists evs. split; [done|].
  eapply Forall_impl; eauto.
Qed.

Lemma new_events_app w w' evs : trace w' = trace w ++ evs -> new_events w w' = evs.
Proof. intros H. unfold new_events. by rewrite H, drop_app_length. Qed.

Lemma adds_call {A} (P : Event -> Prop) ev (f : Ext -> Res A * Ext) :
  P ev -> stable (adds P) (call ev f).
Proof.
  intros HP w. unfold call. destruct (f (ext w)) as [r x]. simpl.
  exists [ev]. split; [done | by constructor].
Qed.

Lemma adds_call_pure {A} (P : Event -> Prop) ev (f : Heap -> Res A) :
  P ev -> stable (adds P) (call_pure ev f).
Proof. intros HP w. exists [ev]. split; [done | by constructor]. Qed.

Lemma reads_only_call_pure {A} ev (f : Heap -> Res A) :
  stable reads_only (call_pure ev f).
Proof. by intros w. Qed.

Lemma same_heap_call {A} ev (f : Ext -> Res A * Ext) :
  stable same_heap (call ev f).
Proof. intros w. unfold call. by destruct (f (ext w)). Qed.

(** ** AttributeActions *)

Lemma set_index_keys_value_default keys aa :
  default_action (set_index_keys_value keys aa) = default_action aa.
Proof. revert aa. induction keys as [|k keys IH]; intros aa; simpl; [done|]. by rewrite IH. Qed.

Lemma set_index_keys_value_other keys aa name :
  name ∉ keys -> action (set_index_keys_value keys aa) name = action aa name.
Proof.
  revert aa. induction keys as [|k keys IH]; intros aa Hn; simpl; [done|].
  apply not_elem_of_cons in Hn as [Hne Hn]. rewrite IH by done.
  unfold action. simpl. by rewrite lookup_insert_ne.
Qed.

Lemma set_index_keys_value_key keys aa name :
  name ∈ keys -> action (set_index_keys_value keys aa) name = DO_NOTHING.
Proof.
  revert aa. induction keys as [|k keys IH]; intros aa Hin; simpl.
  - by apply elem_of_nil in Hin.
  - destruct (decide (name ∈ keys)) as [Hk|Hk]; [by apply IH|].
    apply elem_of_cons in Hin as [->|Hin]; [|done].
    rewrite set_index_keys_value_other by done.
    unfold action. simpl. by rewrite lookup_insert_eq.
Qed.

(** ** _crypto_config *)

(** What a call of [_crypto_config] does, case by case. *)
Lemma _crypto_config_run self name w :
  _crypto_config self name w =
  let (r, x) := cache_table_info name (ext w) in
  let tr := trace w ++ [EvTableInfo name] in
  match r with
  | Raise e => (Raise e, mkWorld (heap w) (bodies w) x tr)
  | Ok ti =>
      match heap w !! _attribute_actions self with
      | None => (Raise InvalidReference, mkWorld (heap w) (bodies w) x tr)
      | Some aa =>
          let l := fresh (dom (heap w)) in
          (Ok (mkCryptoConfig (_materials_provider self)
                              (mkEncryptionContext (encryption_context_values ti)) l),
           mkWorld (<[l := set_index_keys_value (protected_index_keys ti) aa]> (heap w))
                   (bodies w) x tr)
      end
  end.
Proof.
  unfold _crypto_config, table_info, call, bind at 1.
  destruct (cache_table_info name (ext w)) as [[ti|e] x]; [|done].
  unfold copy, load, bind; simpl.
  destruct (heap w !! _attribute_actions self) as [aa|]; [|done].
  unfold new, set_index_keys, load, store, bind, ret; simpl.
  rewrite lookup_insert_eq. simpl. rewrite insert_insert_eq.
  by destruct aa.
Qed.

Lemma fresh_ref_ne (h : Heap) (l : ref) : is_Some (h !! l) -> fresh (dom h) ≠ l.
Proof.
  intros Hl Heq. apply elem_of_dom in Hl. rewrite <- Heq in Hl.
  by apply is_fresh in Hl.
Qed.

Lemma _crypto_config_heap self name w (l : ref) :
  is_Some (heap w !! l) ->
  heap (_crypto_config self name w).2 !! l = heap w !! l.
Proof.
  intros Hl. rewrite _crypto_config_run.
  destruct (cache_table_info name (ext w)) as [[ti|e] x]; simpl; [|done].
  destruct (heap w !! _attribute_actions self) as [aa|]; simpl; [|done].
  rewrite lookup_insert_ne; [done|]. by apply fresh_ref_ne.
Qed.

Lemma _crypto_config_default self name w :
  heap (_crypto_config self name w).2 !! _attribute_actions self
  = heap w !! _attribute_actions self.
Proof.
  destruct (heap w !! _attribute_actions self) as [aa|] eqn:Hd.
  - rewrite _crypto_config_heap; [done|]. by rewrite Hd.
  - rewrite _crypto_config_run.
    destruct (cache_table_info name (ext w)) as [[ti|e] x]; simpl; [|done].
    by rewrite !Hd.
Qed.

(** C1: when the cache knows the table, [_crypto_config] returns a
    configuration whose attribute actions give DO_NOTHING (unprotected) to
    every name of the table's [protected_index_keys()], whatever the
    resource's default [AttributeActions] said for it; the other names keep
    the action of the default. *)
Theorem crypto_config_index_keys_unprotected
    (self : EncryptedResource) (table_name : string) (w : World)
    (ti : TableInfo) (x : Ext) (dflt : AttributeActions) :
  cache_table_info table_name (ext w) = (Ok ti, x) ->
  heap w !! _attribute_actions self = Some dflt ->
  exists cfg w' aa,
    _crypto_config self table_name w = (Ok cfg, w') /\
    heap w' !! cc_attribute_actions cfg = Some aa /\
    (forall key, key ∈ protected_index_keys ti -> action aa key = DO_NOTHING) /\
    (forall key, key ∉ protected_index_keys ti -> action aa key = action dflt key).
Proof.
  intros Hti Hd. rewrite _crypto_config_run, Hti, Hd. simpl.
  eexists _, _, _. split; [reflexivity|]. simpl. split.
  - apply lookup_insert_eq.
  - split; intros key Hk.
    + by apply set_index_keys_value_key.
    + by apply set_index_keys_value_other.
Qed.

(** C2: resolving a configuration, once, twice for the same table, or for
    any list of tables in turn, leaves the resource's default
    [AttributeActions] object as it was; the configuration returned refers to
    an object that did not exist before the call. *)
Theorem crypto_config_keeps_default
    (self : EncryptedResource) (table_name : string) (names : list string)
    (w : World) :
  let d := _attribute_actions self in
  let w1 := (_crypto_config self table_name w).2 in
  let w2 := (_crypto_config self table_name w1).2 in
  heap w1 !! d = heap w !! d /\
  heap w2 !! d = heap w !! d /\
  heap (resolve_each self names w) !! d = heap w !! d /\
  (forall cfg, (_crypto_config self table_name w).1 = Ok cfg ->
     heap w !! cc_attribute_actions cfg = None /\ cc_attribute_actions cfg ≠ d).
Proof.
  simpl. split; [apply _crypto_config_default|].
  split; [by rewrite !_crypto_config_default|]. split.
  - revert w. induction names as [|n names IH]; intros w; simpl; [done|].
    by rewrite IH, _crypto_config_default.
  - intros cfg. rewrite _crypto_config_run.
    destruct (cache_table_info table_name (ext w)) as [[ti|e] x]; simpl; [|done].
    destruct (heap w !! _attribute_actions self) as [aa|] eqn:Hd; simpl; [|done].
    intros [= <-]. simpl. split.
    + apply not_elem_of_dom, is_fresh.
    + apply fresh_ref_ne. by rewrite Hd.
Qed.

Lemma _crypto_config_adds (P : Event -> Prop) self name :
  P (EvTableInfo name) -> stable (adds P) (_crypto_config self name).
Proof.
  intros HP w. rewrite _crypto_config_run.
  exists [EvTableInfo name]. split; [|by constructor].
  destruct (cache_table_info name (ext w)) as [[ti|e] x]; simpl; [|done].
  by destruct (heap w !! _attribute_actions self).
Qed.

Lemma crypto_config_for_override self rcc name :
  rcc ≠ VNone -> crypto_config_for self rcc name = ret rcc.
Proof. intros H. unfold crypto_config_for. by destruct rcc. Qed.

Lemma crypto_config_for_adds (P : Event -> Prop) self rcc name :
  P (EvTableInfo name) -> stable (adds P) (crypto_config_for self rcc name).
Proof.
  intros HP. unfold crypto_config_for. destruct (is_not_None rcc).
  - apply stable_ret, _.
  - apply stable_bind; [apply _ | by apply _crypto_config_adds |].
    intros c. apply stable_ret, _.
Qed.

(** ** Loops of calls that only read *)

Section ReadingLoop.
Context {A B : Type} (ev : A -> Event) (f : A -> Heap -> Res B).

Lemma for_each_call_pure_Ok xs w ys w1 :
  for_each (fun x => call_pure (ev x) (f x)) xs w = (Ok ys, w1) ->
  Forall2 (fun x y => f x (heap w) = Ok y) xs ys /\
  w1 = mkWorld (heap w) (bodies w) (ext w) (trace w ++ map ev xs).
Proof.
  revert w ys w1. induction xs as [|x xs IH]; intros w ys w1 H; simpl in H.
  - injection H as <- <-. split; [constructor|].
    destruct w; simpl. by rewrite app_nil_r.
  - apply bind_inv_Ok in H as (y & w2 & Hy & H).
    apply bind_inv_Ok in H as (ys' & w3 & Hys & H).
    injection H as <- <-. unfold call_pure in Hy. injection Hy as Hy <-.
    apply IH in Hys as [HF ->]. simpl. split; [by constructor|].
    by rewrite <- app_assoc.
Qed.

Lemma for_each_call_pure_Raise xs w e w1 :
  for_each (fun x => call_pure (ev x) (f x)) xs w = (Raise e, w1) ->
  exists pre x post,
    xs = pre ++ x :: post /\
    Forall (fun x' => exists y, f x' (heap w) = Ok y) pre /\
    f x (heap w) = Raise e /\
    w1 = mkWorld (heap w) (bodies w) (ext w) (trace w ++ map ev (pre ++ [x])).
Proof.
  revert w w1. induction xs as [|x xs IH]; intros w w1 H; simpl in H; [done|].
  unfold bind at 1 in H. unfold call_pure at 1 in H.
  destruct (f x (heap w)) as [y|e'] eqn:Hx.
  - unfold bind at 1 in H.
    destruct (for_each _ xs _) as [[ys|e''] w2] eqn:Hxs; [done|].
    injection H as -> ->. apply IH in Hxs as (pre & x' & post & -> & Hpre & Hx' & ->).
    simpl in *. exists (x :: pre), x', post. split; [done|].
    split; [constructor; eauto|]. split; [done|].
    simpl. by rewrite <- app_assoc.
  - injection H as -> <-. exists [], x, xs. simpl. by repeat split.
Qed.
End ReadingLoop.

(** ** batch_get_item *)

Lemma decrypt_reads_only cfg item : stable reads_only (decrypt cfg item).
Proof. apply reads_only_call_pure. Qed.

Lemma config_used_resolved self rcc h0 name w cfg w1 :
  crypto_config_for self rcc name w = (Ok cfg, w1) ->
  (rcc ≠ VNone -> heap w = h0) ->
  config_used self rcc h0 name cfg (heap w1).
Proof.
  unfold crypto_config_for, config_used. intros H Hh.
  destruct (is_not_None rcc) eqn:Hn.
  - injection H as <- <-. split; [done|]. apply Hh. by destruct rcc.
  - apply bind_inv_Ok in H as (c & w2 & Hc & H). injection H as <- <-.
    by exists w, c, w2.
Qed.

Lemma crypto_config_for_same_heap self rcc name :
  rcc ≠ VNone -> stable same_heap (crypto_config_for self rcc name).
Proof.
  intros H. rewrite crypto_config_for_override by done. apply stable_ret, _.
Qed.

Lemma decrypt_table_Ok self rcc entry w entry' w' :
  decrypt_table self rcc entry w = (Ok entry', w') ->
  decrypted_table self rcc (heap w) entry entry'.
Proof.
  unfold decrypt_table. intros H.
  apply bind_inv_Ok in H as (cfg & w1 & Hcfg & H).
  apply bind_inv_Ok in H as (items & w2 & Hitems & H).
  injection H as <- <-. split; [done|]. exists cfg, (heap w1). split.
  - by eapply config_used_resolved.
  - by apply (for_each_call_pure_Ok (fun i => EvDecrypt i cfg)
                                     (fun i => decrypt_python_item i cfg))
      in Hitems as [HF _].
Qed.

Lemma decrypt_table_same_heap self rcc entry :
  rcc ≠ VNone -> stable same_heap (decrypt_table self rcc entry).
Proof.
  intros H. unfold decrypt_table.
  apply stable_bind; [apply _ | by apply crypto_config_for_same_heap |].
  intros cfg. apply stable_bind; [apply _ | | intros; apply stable_ret, _].
  apply stable_for_each; [apply _|]. intros item _ w. apply decrypt_reads_only.
Qed.

Lemma decrypted_table_heap self rcc h0 h1 entry entry' :
  (rcc ≠ VNone -> h1 = h0) ->
  decrypted_table self rcc h1 entry entry' -> decrypted_table self rcc h0 entry entry'.
Proof.
  intros Hh (Hn & cfg & h & Hc & HF). split; [done|]. exists cfg, h. split; [|done].
  unfold config_used in *. destruct (is_not_None rcc) eqn:E; [|done].
  destruct Hc as [-> ->]. split; [done|]. apply Hh. by destruct rcc.
Qed.

Lemma for_each_decrypt_table_Ok self rcc raw w dec w' :
  for_each (decrypt_table self rcc) raw w = (Ok dec, w') ->
  Forall2 (decrypted_table self rcc (heap w)) raw dec.
Proof.
  revert w dec w'. induction raw as [|entry raw IH]; intros w dec w' H; simpl in H.
  - injection H as <- _. constructor.
  - apply bind_inv_Ok in H as (entry' & w1 & He & H).
    apply bind_inv_Ok in H as (dec' & w2 & Hd & H).
    injection H as <- _. constructor; [by eapply decrypt_table_Ok|].
    apply IH in Hd. eapply Forall2_impl; [exact Hd|].
    intros e e'. apply decrypted_table_heap. intros Hn.
    pose proof (decrypt_table_same_heap self rcc entry Hn w) as Hs.
    by rewrite He in Hs.
Qed.

Lemma validation_Ok r w us w1 :
  for_each (fun entry : string * GetSpec => validate entry.2) r w = (Ok us, w1) ->
  Forall (fun entry => validate_get_arguments entry.2 = Ok tt) r /\
  w1 = mkWorld (heap w) (bodies w) (ext w)
               (trace w ++ map (fun entry => EvValidate entry.2) r).
Proof.
  intros H.
  apply (for_each_call_pure_Ok (fun entry : string * GetSpec => EvValidate entry.2)
           (fun entry _ => validate_get_arguments entry.2)) in H as [HF ->].
  split; [|done]. clear -HF. induction HF as [|x [] xs ys Hx _ IH]; by constructor.
Qed.

Lemma validation_Raise r w e w1 :
  for_each (fun entry : string * GetSpec => validate entry.2) r w = (Raise e, w1) ->
  (exists entry, entry ∈ r /\ validate_get_arguments entry.2 = Raise e) /\
  exists evs, trace w1 = trace w ++ evs /\ Forall is_validate evs.
Proof.
  intros H.
  apply (for_each_call_pure_Raise (fun entry : string * GetSpec => EvValidate entry.2)
           (fun entry _ => validate_get_arguments entry.2))
    in H as (pre & x & post & -> & _ & Hx & ->).
  split.
  - exists x. split; [|done]. apply elem_of_app. right. left.
  - eexists. split; [reflexivity|]. apply Forall_map, Forall_forall. by intros.
Qed.

Lemma stable_bind_ret {A B} (R : relation World) (a : A) (k : A -> M B) :
  stable R (k a) -> stable R (bind (ret a) k).
Proof. intros H w. apply H. Qed.

Lemma decrypt_table_adds (P : Event -> Prop) self rcc entry :
  (is_not_None rcc = false -> P (EvTableInfo entry.1)) ->
  (forall item cfg, (is_not_None rcc = true -> cfg = rcc) -> P (EvDecrypt item cfg)) ->
  stable (adds P) (decrypt_table self rcc entry).
Proof.
  intros HT HD. unfold decrypt_table, crypto_config_for.
  destruct (is_not_None rcc) eqn:Hn.
  - apply stable_bind_ret.
    apply stable_bind; [apply _ | | intros; apply stable_ret, _].
    apply stable_for_each; [apply _|]. intros item _. apply adds_call_pure. by apply HD.
  - apply stable_bind; [apply _ | |].
    { apply stable_bind; [apply _ | apply _crypto_config_adds; by apply HT |].
      intros c. apply stable_ret, _. }
    intros cfg. apply stable_bind; [apply _ | | intros; apply stable_ret, _].
    apply stable_for_each; [apply _|]. intros item _. apply adds_call_pure. by apply HD.
Qed.

Lemma after_get_adds (P : Event -> Prop) self rcc response :
  (is_not_None rcc = false -> forall name, P (EvTableInfo name)) ->
  (forall item cfg, (is_not_None rcc = true -> cfg = rcc) -> P (EvDecrypt item cfg)) ->
  stable (adds P) (after_get self rcc response).
Proof.
  intros HT HD. unfold after_get.
  apply stable_bind; [apply _ | |].
  { unfold get_responses. destruct (response !! "Responses") as [[]|];
      first [apply stable_ret, _ | apply stable_raise, _]. }
  intros raw. apply stable_bind; [apply _ | | intros; apply stable_ret, _].
  apply stable_for_each; [apply _|]. intros entry _.
  apply decrypt_table_adds; [|done]. intros Hn. by apply HT.
Qed.

Lemma batch_get_item_run self kwargs w r :
  kwargs !! "RequestItems" = Some (VGetItems r) ->
  batch_get_item self kwargs w =
  let kw := delete "crypto_config" kwargs in
  match for_each (fun entry : string * GetSpec => validate entry.2) r w with
  | (Raise e, w1) => (Raise e, w1)
  | (Ok _, w1) =>
      (let! response := call (EvBatchGet kw) (resource_batch_get_item kw) in
       after_get self (default VNone (kwargs !! "crypto_config")) response) w1
  end.
Proof.
  intros Hr. unfold batch_get_item. simpl. unfold bind at 1, get_request_items.
  rewrite lookup_delete_ne, Hr by done. simpl. unfold bind at 1.
  by destruct (for_each _ r w) as [[us|e] w1].
Qed.

Lemma validation_total r w :
  Forall (fun entry : string * GetSpec => validate_get_arguments entry.2 = Ok tt) r ->
  for_each (fun entry : string * GetSpec => validate entry.2) r w
  = (Ok (map (fun _ => tt) r),
     mkWorld (heap w) (bodies w) (ext w)
             (trace w ++ map (fun entry => EvValidate entry.2) r)).
Proof.
  intros Hvalid. revert w. induction Hvalid as [|entry r Hentry _ IH]; intros w.
  - simpl. unfold ret. destruct w. simpl. by rewrite app_nil_r.
  - cbn [for_each]. unfold bind at 1. unfold validate at 1, call_pure.
    rewrite Hentry. unfold bind at 1. rewrite IH. simpl. unfold ret.
    by rewrite <- app_assoc.
Qed.

Lemma batch_get_item_valid_run self kwargs w r :
  kwargs !! "RequestItems" = Some (VGetItems r) ->
  Forall (fun entry => validate_get_arguments entry.2 = Ok tt) r ->
  batch_get_item self kwargs w =
  let kw := delete "crypto_config" kwargs in
  match resource_batch_get_item kw (ext w) with
  | (Raise e, x) =>
      (Raise e, mkWorld (heap w) (bodies w) x
                  (trace w ++ map (fun entry => EvValidate entry.2) r ++ [EvBatchGet kw]))
  | (Ok response, x) =>
      after_get self (default VNone (kwargs !! "crypto_config")) response
        (mkWorld (heap w) (bodies w) x
           (trace w ++ map (fun entry => EvValidate entry.2) r ++ [EvBatchGet kw]))
  end.
Proof.
  intros Hr Hvalid. rewrite (batch_get_item_run _ _ _ _ Hr), validation_total by done.
  simpl. unfold bind at 1, call. simpl.
  destruct (resource_batch_get_item _ (ext w)) as [[resp|e] x]; simpl;
    by rewrite <- app_assoc.
Qed.

(** C5: in a [batch_get_item] call, every per-table read spec of
    [RequestItems] goes through [validate_get_arguments] before the boto3
    [batch_get_item] is called; and if [validate_get_arguments] raises for
    some table, the call raises that exception and the boto3
    [batch_get_item] is never called. *)
Theorem batch_get_item_validates_first
    (self : EncryptedResource) (kwargs : Kwargs) (w : World)
    (r : list (string * GetSpec)) :
  kwargs !! "RequestItems" = Some (VGetItems r) ->
  let run := batch_get_item self kwargs w in
  let evs := new_events w run.2 in
  (forall kw, EvBatchGet kw ∈ evs ->
     Forall (fun entry => validate_get_arguments entry.2 = Ok tt) r /\
     exists rest,
       evs = map (fun entry => EvValidate entry.2) r ++ EvBatchGet kw :: rest) /\
  (Exists (fun entry => validate_get_arguments entry.2 ≠ Ok tt) r ->
     (exists entry e,
        entry ∈ r /\ validate_get_arguments entry.2 = Raise e /\ run.1 = Raise e) /\
     forall kw, EvBatchGet kw ∉ evs).
Proof.
  intros Hr. simpl. rewrite (batch_get_item_run _ _ _ _ Hr). simpl.
  destruct (for_each _ r w) as [[us|e] w1] eqn:Hv.
  - apply validation_Ok in Hv as [Hvalid ->].
    set (kw := delete "crypto_config" kwargs).
    set (w1 := mkWorld _ _ _ _).
    set (k := after_get self _).
    assert (exists rest,
      trace ((let! response := call (EvBatchGet kw) (resource_batch_get_item kw) in
              k response) w1).2
      = trace w ++ map (fun entry => EvValidate entry.2) r ++ EvBatchGet kw :: rest /\
      Forall (fun ev => ¬ is_batch_get ev) rest) as (rest & Htr & Hno).
    { unfold bind, call. simpl.
      destruct (resource_batch_get_item kw (ext w)) as [[resp|e] x]; simpl.
      - set (w2 := mkWorld _ _ _ _).
        destruct (after_get_adds (fun ev => ¬ is_batch_get ev) self
                    (default VNone (kwargs !! "crypto_config")) resp
                    ltac:(by intros _ ? []) ltac:(by intros ? ? _ []) w2)
          as (rest & Hrest & Hno).
        exists rest. split; [|done]. unfold k. rewrite Hrest. simpl.
        by rewrite <- !app_assoc.
      - exists []. split; [|done]. by rewrite <- !app_assoc. }
    rewrite (new_events_app _ _ _ Htr). split.
    + intros kw' Hin. split; [done|]. exists rest. do 2 f_equal.
      apply elem_of_app in Hin as [Hin|Hin].
      { apply list_elem_of_fmap in Hin as (? & ? & _). discriminate. }
      apply elem_of_cons in Hin as [Hin|Hin]; [by injection Hin as ->|].
      rewrite Forall_forall in Hno. by destruct (Hno _ Hin).
    + intros Hex. exfalso. apply Exists_exists in Hex as (entry & Hin & Hbad).
      rewrite Forall_forall in Hvalid. by apply Hbad, Hvalid.
  - apply validation_Raise in Hv as ((entry & Hin & He) & evs & Htr & Hevs).
    simpl. rewrite (new_events_app _ _ _ Htr). split.
    + intros kw Hkw. exfalso.
      rewrite Forall_forall in Hevs. by destruct (Hevs _ Hkw).
    + intros _. split; [by exists entry, e|]. intros kw Hkw.
      rewrite Forall_forall in Hevs. by destruct (Hevs _ Hkw).
Qed.

Lemma get_request_items_inv kwargs w r w1 :
  get_request_items kwargs w = (Ok r, w1) ->
  kwargs !! "RequestItems" = Some (VGetItems r) /\ w1 = w.
Proof.
  unfold get_request_items.
  destruct (kwargs !! "RequestItems") as [[]|]; try discriminate.
  by intros [= <- <-].
Qed.

Lemma get_responses_inv response w raw w1 :
  get_responses response w = (Ok raw, w1) ->
  response !! "Responses" = Some (VResponses raw) /\ w1 = w.
Proof.
  unfold get_responses.
  destruct (response !! "Responses") as [[]|]; try discriminate.
  by intros [= <- <-].
Qed.

Lemma batch_get_item_inv_Ok self kwargs w resp' w' :
  batch_get_item self kwargs w = (Ok resp', w') ->
  exists r resp x raw dec w2,
    kwargs !! "RequestItems" = Some (VGetItems r) /\
    Forall (fun entry => validate_get_arguments entry.2 = Ok tt) r /\
    resource_batch_get_item (delete "crypto_config" kwargs) (ext w) = (Ok resp, x) /\
    resp !! "Responses" = Some (VResponses raw) /\
    heap w2 = heap w /\
    for_each (decrypt_table self (default VNone (kwargs !! "crypto_config"))) raw w2
    = (Ok dec, w') /\
    resp' = <["Responses" := VResponses dec]> resp.
Proof.
  unfold batch_get_item. simpl. intros H.
  apply bind_inv_Ok in H as (r & w0 & Hr & H).
  apply get_request_items_inv in Hr as [Hr ->].
  rewrite lookup_delete_ne in Hr by done.
  apply bind_inv_Ok in H as (us & w1 & Hv & H).
  apply validation_Ok in Hv as [Hvalid ->].
  apply bind_inv_Ok in H as (resp & w2 & Hcall & H).
  unfold call in Hcall. simpl in Hcall.
  destruct (resource_batch_get_item _ (ext w)) as [r0 x] eqn:Hget.
  injection Hcall as -> <-.
  apply bind_inv_Ok in H as (raw & w3 & Hraw & H).
  apply get_responses_inv in Hraw as [Hraw ->].
  apply bind_inv_Ok in H as (dec & w4 & Hdec & H).
  injection H as <- <-.
  eexists r, resp, x, raw, dec, _.
  do 4 (split; [done|]). refine (conj _ (conj Hdec eq_refl)). done.
Qed.

(** C6: when [batch_get_item] returns, what it returns is the response of
    the boto3 resource in which, under 'Responses', the items of every table
    are replaced, position by position, by their [decrypt_python_item] under
    one configuration per table, the one of the call or else the one resolved
    for the table (same tables, same number of items, same order); every
    other field of the response is the one received. *)
Theorem batch_get_item_decrypts_in_place
    (self : EncryptedResource) (kwargs : Kwargs) (w : World)
    (response' : Kwargs) (w' : World) :
  batch_get_item self kwargs w = (Ok response', w') ->
  exists response x raw decrypted,
    resource_batch_get_item (delete "crypto_config" kwargs) (ext w) = (Ok response, x) /\
    response !! "Responses" = Some (VResponses raw) /\
    response' !! "Responses" = Some (VResponses decrypted) /\
    (forall key, key ≠ "Responses" -> response' !! key = response !! key) /\
    length decrypted = length raw /\
    (forall i entry, raw !! i = Some entry ->
       exists items' cfg h,
         decrypted !! i = Some (entry.1, items') /\
         config_used self (default VNone (kwargs !! "crypto_config")) (heap w)
                     entry.1 cfg h /\
         length items' = length entry.2 /\
         forall pos item, entry.2 !! pos = Some item ->
           exists item', items' !! pos = Some item' /\
                         decrypt_python_item item cfg h = Ok item').
Proof.
  intros H.
  apply batch_get_item_inv_Ok in H
    as (r & resp & x & raw & dec & w2 & _ & _ & Hget & Hraw & Hheap & Hdec & ->).
  apply for_each_decrypt_table_Ok in Hdec. rewrite Hheap in Hdec.
  exists resp, x, raw, dec. split; [done|]. split; [done|].
  split; [apply lookup_insert_eq|].
  split; [intros key Hk; by apply lookup_insert_ne|].
  split; [symmetry; by eapply Forall2_length|].
  intros i entry Hi.
  destruct (Forall2_lookup_l _ _ _ _ _ Hdec Hi)
    as ([name items'] & Hi' & Hname & cfg & h & Hcfg & HF).
  simpl in *. subst name. exists items', cfg, h.
  split; [done|]. split; [done|]. split; [symmetry; by eapply Forall2_length|].
  intros pos item Hpos.
  destruct (Forall2_lookup_l _ _ _ _ _ HF Hpos) as (item' & ? & ?). eauto.
Qed.

(** ** batch_write_item *)

Lemma new_events_trans (P Q : Event -> Prop) w w1 w2 :
  adds P w w1 -> adds Q w1 w2 ->
  new_events w w2 = new_events w w1 ++ new_events w1 w2.
Proof.
  intros (e1 & H1 & _) (e2 & H2 & _).
  rewrite (new_events_app _ _ _ H1), (new_events_app _ _ _ H2).
  apply new_events_app. by rewrite H2, H1, app_assoc.
Qed.

Lemma new_events_same w : new_events w w = [].
Proof. apply new_events_app. by rewrite app_nil_r. Qed.

(** An event of a part of a run is an event of the run. *)
Lemma new_events_part w w1 w2 w' ev :
  adds (fun _ => True) w w1 -> adds (fun _ => True) w1 w2 ->
  adds (fun _ => True) w2 w' ->
  ev ∈ new_events w1 w2 -> ev ∈ new_events w w'.
Proof.
  intros H1 H2 H3 Hin.
  rewrite (new_events_trans _ _ w w1 w') by (done || by etransitivity).
  rewrite (new_events_trans _ _ w1 w2 w') by done.
  rewrite !elem_of_app. auto.
Qed.

Lemma body_of_insert st b body : body_of (<[b := body]> st) b = body.
Proof. unfold body_of. by rewrite lookup_insert_eq. Qed.

Lemma body_of_insert_ne st b b' body :
  b ≠ b' -> body_of (<[b := body]> st) b' = body_of st b'.
Proof. intros Hne. unfold body_of. by rewrite lookup_insert_ne. Qed.

#[local] Instance same_bodies_preorder : PreOrder same_bodies.
Proof.
  split; [done|]. intros w1 w2 w3 H1 H2. unfold same_bodies in *. congruence.
Qed.

#[local] Instance modifies_preorder S : PreOrder (modifies S).
Proof.
  split; [done|]. intros w1 w2 w3 H1 H2 b Hb. by rewrite H2, H1.
Qed.

#[local] Instance keeps_itemless_preorder : PreOrder keeps_itemless.
Proof.
  split; [done|]. intros w1 w2 w3 H1 H2 b Hb.
  rewrite H2, H1; [done..|]. by rewrite H1.
Qed.

#[local] Instance tracks_preorder : PreOrder tracks.
Proof.
  split.
  - intros w. split; [reflexivity|]. intros b item _. by left.
  - intros w1 w2 w3 [A1 T1] [A2 T2]. split; [by etransitivity|].
    intros b item Hi. rewrite (new_events_trans _ _ _ _ _ A1 A2).
    destruct (T1 _ _ Hi) as [Hsame|(cfg & h & enc & Henc & Hin)].
    + rewrite <- Hsame in Hi.
      destruct (T2 _ _ Hi) as [Hsame'|(cfg & h & enc & Henc & Hin)].
      * left. by rewrite Hsame'.
      * right. exists cfg, h, enc. split; [done|]. apply elem_of_app. by right.
    + right. exists cfg, h, enc. split; [done|]. apply elem_of_app. by left.
Qed.

#[local] Instance same_heap_if_given_preorder rcc : PreOrder (same_heap_if_given rcc).
Proof.
  split; [done|]. intros w1 w2 w3 H1 H2 Hn. by rewrite H2, H1.
Qed.

#[local] Instance keeps_objects_preorder : PreOrder keeps_objects.
Proof.
  split; [done|]. intros w1 w2 w3 H1 H2 l Hl.
  rewrite H2, H1; [done..|]. by rewrite H1.
Qed.

#[local] Instance both_preorder (R1 R2 : relation World)
    `{!PreOrder R1} `{!PreOrder R2} : PreOrder (both R1 R2).
Proof.
  split.
  - intros w. split; reflexivity.
  - intros w1 w2 w3 [A1 B1] [A2 B2]. split; etransitivity; eauto.
Qed.

Lemma stable_both {A} (R1 R2 : relation World) (m : M A) :
  stable R1 m -> stable R2 m -> stable (both R1 R2) m.
Proof. intros H1 H2 w. split; [apply H1 | apply H2]. Qed.

Lemma stable_weaken {A} (R R' : relation World) (m : M A) :
  (forall w w', R w w' -> R' w w') -> stable R m -> stable R' m.
Proof. intros HR Hm w. apply HR, Hm. Qed.

Lemma same_bodies_modifies S w w' : same_bodies w w' -> modifies S w w'.
Proof. intros H b _. by rewrite H. Qed.

Lemma same_bodies_keeps_itemless w w' : same_bodies w w' -> keeps_itemless w w'.
Proof. intros H b _. by rewrite H. Qed.

Lemma same_bodies_tracks w w' :
  adds (fun _ => True) w w' -> same_bodies w w' -> tracks w w'.
Proof. intros Ha H. split; [done|]. intros b item _. left. by rewrite H. Qed.

Lemma modifies_subseteq S S' w w' :
  (forall b, b ∈ S -> b ∈ S') -> modifies S w w' -> modifies S' w w'.
Proof. intros Hsub H b Hb. apply H. intros Hin. by apply Hb, Hsub. Qed.

Lemma same_heap_keeps_objects w w' : same_heap w w' -> keeps_objects w w'.
Proof. intros H l _. by rewrite H. Qed.

Lemma reads_only_same_heap w w' : reads_only w w' -> same_heap w w'.
Proof. by intros [H _]. Qed.

(** *** The configuration of a table *)

Lemma _crypto_config_same_bodies self name :
  stable same_bodies (_crypto_config self name).
Proof.
  intros w. rewrite _crypto_config_run.
  destruct (cache_table_info name (ext w)) as [[ti|e] x]; simpl; [|done].
  by destruct (heap w !! _attribute_actions self).
Qed.

Lemma crypto_config_for_same_bodies self rcc name :
  stable same_bodies (crypto_config_for self rcc name).
Proof.
  unfold crypto_config_for. destruct (is_not_None rcc); [apply stable_ret, _|].
  apply stable_bind; [apply _ | apply _crypto_config_same_bodies |].
  intros c. apply stable_ret, _.
Qed.

Lemma crypto_config_for_keeps_objects self rcc name :
  stable keeps_objects (crypto_config_for self rcc name).
Proof.
  unfold crypto_config_for. destruct (is_not_None rcc); [apply stable_ret, _|].
  apply stable_bind; [apply _ | | intros; apply stable_ret, _].
  intros w l Hl. by apply _crypto_config_heap.
Qed.

Lemma crypto_config_for_same_heap_if_given self rcc name :
  stable (same_heap_if_given rcc) (crypto_config_for self rcc name).
Proof. intros w Hn. by apply crypto_config_for_same_heap. Qed.

Lemma crypto_config_for_tracks self rcc name :
  stable tracks (crypto_config_for self rcc name).
Proof.
  intros w. apply same_bodies_tracks.
  - by apply crypto_config_for_adds.
  - apply crypto_config_for_same_bodies.
Qed.

Lemma crypto_config_for_modifies S self rcc name :
  stable (modifies S) (crypto_config_for self rcc name).
Proof. intros w. apply same_bodies_modifies, crypto_config_for_same_bodies. Qed.

Lemma crypto_config_for_keeps_itemless self rcc name :
  stable keeps_itemless (crypto_config_for self rcc name).
Proof. intros w. apply same_bodies_keeps_itemless, crypto_config_for_same_bodies. Qed.

(** *** One entry of a request *)

(** What the visit of an entry does, case by case. *)
Lemma encrypt_entry_run cfg entry w :
  encrypt_entry cfg entry w =
  if String.eqb entry.1 "PutRequest" then
    let body := body_of (bodies w) entry.2 in
    match body !! "Item" with
    | None => (Raise (KeyError "Item"), w)
    | Some item =>
        let tr := trace w ++ [EvEncrypt item cfg] in
        match encrypt_python_item item cfg (heap w) with
        | Raise e => (Raise e, mkWorld (heap w) (bodies w) (ext w) tr)
        | Ok encrypted =>
            (Ok tt, mkWorld (heap w)
                      (<[entry.2 := <["Item" := encrypted]> body]> (bodies w))
                      (ext w) tr)
        end
    end
  else (Ok tt, w).
Proof.
  unfold encrypt_entry. destruct (String.eqb entry.1 "PutRequest"); [|done].
  unfold bind at 1, load_body. unfold bind at 1.
  destruct (body_of (bodies w) entry.2 !! "Item") as [item|]; simpl; [|done].
  unfold bind, encrypt, call_pure, store_body. simpl.
  by destruct (encrypt_python_item item cfg (heap w)).
Qed.

(** Goes through the cases of [encrypt_entry_run]. *)
Ltac entry_cases w cfg entry :=
  rewrite !encrypt_entry_run;
  destruct (String.eqb_spec entry.1 "PutRequest") as [?Hput|?Hput]; cbv zeta;
  [destruct (body_of (bodies w) entry.2 !! "Item") as [?item|] eqn:?Hitem;
   [destruct (encrypt_python_item item cfg (heap w)) as [?enc|?err] eqn:?Henc|]|];
  cbn [fst snd heap bodies ext trace].

Lemma encrypt_entry_reads_only cfg entry : stable reads_only (encrypt_entry cfg entry).
Proof. intros w. entry_cases w cfg entry; done. Qed.

Lemma encrypt_entry_adds (P : Event -> Prop) cfg entry :
  (forall item, P (EvEncrypt item cfg)) -> stable (adds P) (encrypt_entry cfg entry).
Proof.
  intros HP w. entry_cases w cfg entry; try reflexivity;
    (exists [EvEncrypt item cfg]; split; [done | by constructor]).
Qed.

Lemma encrypt_entry_modifies cfg entry :
  stable (modifies (entry_put_refs entry)) (encrypt_entry cfg entry).
Proof.
  intros w b Hb. unfold entry_put_refs in Hb. entry_cases w cfg entry; try done.
  apply body_of_insert_ne. intros Heq. apply Hb.
  rewrite Heq. left.
Qed.

Lemma encrypt_entry_keeps_itemless cfg entry :
  stable keeps_itemless (encrypt_entry cfg entry).
Proof.
  intros w b Hb. entry_cases w cfg entry; try done.
  apply body_of_insert_ne. intros Heq. rewrite Heq in *. congruence.
Qed.

Lemma encrypt_entry_tracks cfg entry : stable tracks (encrypt_entry cfg entry).
Proof.
  intros w. split; [by apply encrypt_entry_adds|]. intros b item0 Hb.
  entry_cases w cfg entry; try by left.
  destruct (decide (entry.2 = b)) as [<-|Hne].
  - right. exists cfg, (heap w), enc. split; [congruence|].
    rewrite (new_events_app w _ [EvEncrypt item cfg]) by done.
    assert (item0 = item) as -> by congruence. left.
  - left. by apply body_of_insert_ne.
Qed.

(** A visit that returns has encrypted the item found. *)
Lemma encrypt_entry_put_Ok cfg b w w' :
  encrypt_entry cfg ("PutRequest", b) w = (Ok tt, w') ->
  exists item encrypted,
    body_of (bodies w) b !! "Item" = Some item /\
    encrypt_python_item item cfg (heap w) = Ok encrypted /\
    w' = mkWorld (heap w)
           (<[b := <["Item" := encrypted]> (body_of (bodies w) b)]> (bodies w))
           (ext w) (trace w ++ [EvEncrypt item cfg]).
Proof.
  rewrite encrypt_entry_run. simpl.
  destruct (body_of (bodies w) b !! "Item") as [item|] eqn:Hi; [|done].
  destruct (encrypt_python_item item cfg (heap w)) as [enc|e] eqn:Henc; [|done].
  intros [= <-]. by exists item, enc.
Qed.

Lemma encrypt_entry_not_put cfg entry w :
  entry.1 ≠ "PutRequest" -> encrypt_entry cfg entry w = (Ok tt, w).
Proof.
  intros Hne. rewrite encrypt_entry_run.
  by destruct (String.eqb_spec entry.1 "PutRequest").
Qed.

Lemma encrypt_entry_Raise cfg entry w e w' :
  encrypt_entry cfg entry w = (Raise e, w') ->
  entry.1 = "PutRequest" /\
  (body_of (bodies w) entry.2 !! "Item" = None /\ e = KeyError "Item" \/
   exists item, body_of (bodies w) entry.2 !! "Item" = Some item /\
                encrypt_python_item item cfg (heap w) = Raise e).
Proof.
  entry_cases w cfg entry; try done.
  - intros [= <- _]. split; [done|]. right. by exists item.
  - intros [= <- _]. split; [done|]. by left.
Qed.

(** *** The loops *)

(** A round of a loop that returns: the world it started in and the one it
    left are related to those of the loop by what every round keeps. *)
Lemma for_each_visit {A B} (R : relation World) `{!PreOrder R}
    (f : A -> M B) xs w ys w' x :
  (forall x, stable R (f x)) ->
  for_each f xs w = (Ok ys, w') -> x ∈ xs ->
  exists w1 y w2, R w w1 /\ f x w1 = (Ok y, w2) /\ R w2 w'.
Proof.
  intros Hf. revert w ys w'.
  induction xs as [|x0 xs IH]; intros w ys w' H Hin; simpl in H.
  - by apply elem_of_nil in Hin.
  - apply bind_inv_Ok in H as (y & w1 & Hy & H).
    apply bind_inv_Ok in H as (ys' & w2 & Hys & H). injection H as _ <-.
    assert (R w w1) as H1.
    { pose proof (Hf x0 w) as Hs. by rewrite Hy in Hs. }
    assert (R w1 w2) as H2.
    { pose proof (stable_for_each R f xs ltac:(intros; apply Hf) w1) as Hs.
      by rewrite Hys in Hs. }
    apply elem_of_cons in Hin as [->|Hin].
    + exists w, y, w1. split; [reflexivity|]. by split.
    + destruct (IH _ _ _ Hys Hin) as (wa & y' & wb & Ha & Hrun & Hb).
      exists wa, y', wb. split; [by etransitivity|]. by split.
Qed.

Lemma for_each_modifies {A B} (f : A -> M B) (fp : A -> list ref) xs :
  (forall x, stable (modifies (fp x)) (f x)) ->
  stable (modifies (xs ≫= fp)) (for_each f xs).
Proof.
  intros Hf. apply stable_for_each; [apply _|]. intros x Hx.
  eapply stable_weaken; [|apply Hf]. intros w w'. apply modifies_subseteq.
  intros b Hb. apply list_elem_of_bind. by exists x.
Qed.

(** The same when the rounds assign into bodies of their own: the bodies of
    a round are, when it starts, as the loop found them and, when the loop
    ends, as the round left them. *)
Lemma for_each_visit_alone {A B} (R : relation World) `{!PreOrder R}
    (f : A -> M B) (fp : A -> list ref) xs w ys w' x :
  (forall x, stable R (f x)) ->
  (forall x, stable (modifies (fp x)) (f x)) ->
  NoDup (xs ≫= fp) ->
  for_each f xs w = (Ok ys, w') -> x ∈ xs ->
  exists w1 y w2,
    R w w1 /\ f x w1 = (Ok y, w2) /\ R w2 w' /\ NoDup (fp x) /\
    forall b, b ∈ fp x ->
      body_of (bodies w1) b = body_of (bodies w) b /\
      body_of (bodies w') b = body_of (bodies w2) b.
Proof.
  intros Hf Hm. revert w ys w'.
  induction xs as [|x0 xs IH]; intros w ys w' Hnd H Hin; simpl in H.
  - by apply elem_of_nil in Hin.
  - rewrite bind_cons in Hnd. apply NoDup_app in Hnd as (Hnd0 & Hdisj & Hnd).
    apply bind_inv_Ok in H as (y & w1 & Hy & H).
    apply bind_inv_Ok in H as (ys' & w2 & Hys & H). injection H as _ <-.
    assert (R w w1 /\ modifies (fp x0) w w1) as [H1 M1].
    { pose proof (Hf x0 w) as Hs. pose proof (Hm x0 w) as Hs'.
      by rewrite Hy in Hs, Hs'. }
    assert (R w1 w2 /\ modifies (xs ≫= fp) w1 w2) as [H2 M2].
    { pose proof (stable_for_each R f xs ltac:(intros; apply Hf) w1) as Hs.
      pose proof (for_each_modifies f fp xs Hm w1) as Hs'.
      by rewrite Hys in Hs, Hs'. }
    apply elem_of_cons in Hin as [->|Hin].
    + exists w, y, w1. split; [reflexivity|]. do 3 (split; [done|]).
      intros b Hb. split; [done|]. apply M2. by apply Hdisj.
    + destruct (IH _ _ _ Hnd Hys Hin) as (wa & y' & wb & Ha & Hrun & Hb & Hndx & Hfp).
      exists wa, y', wb. split; [by etransitivity|]. do 3 (split; [done|]).
      intros b Hbx. destruct (Hfp b Hbx) as [Hfp1 Hfp2]. split; [|done].
      rewrite Hfp1. apply M1. intros Hb0. apply (Hdisj b Hb0).
      apply list_elem_of_bind. by exists x.
Qed.

Section Transform.
Context (self : EncryptedResource) (rcc : PyVal).

Lemma encrypt_requests_stable (R : relation World) `{!PreOrder R} cfg
    (reqs : list WriteRequest) :
  (forall e, stable R (encrypt_entry cfg e)) ->
  stable R (for_each (for_each (encrypt_entry cfg)) reqs).
Proof.
  intros He. apply stable_for_each; [apply _|]. intros req _.
  apply stable_for_each; [apply _|]. intros e _. apply He.
Qed.

Lemma encrypt_table_stable (R : relation World) `{!PreOrder R} entry :
  stable R (crypto_config_for self rcc entry.1) ->
  (forall cfg e, stable R (encrypt_entry cfg e)) ->
  stable R (encrypt_table self rcc entry).
Proof.
  intros Hc He. unfold encrypt_table.
  apply stable_bind; [apply _ | apply Hc |]. intros cfg.
  apply stable_bind; [apply _ | | intros; apply stable_ret, _].
  apply encrypt_requests_stable; [apply _|]. apply He.
Qed.

Lemma encrypt_table_adds (P : Event -> Prop) entry :
  (is_not_None rcc = false -> P (EvTableInfo entry.1)) ->
  (forall item cfg, (is_not_None rcc = true -> cfg = rcc) -> P (EvEncrypt item cfg)) ->
  stable (adds P) (encrypt_table self rcc entry).
Proof.
  intros HT HE.
  assert (forall cfg, (is_not_None rcc = true -> cfg = rcc) ->
            stable (adds P) (for_each (for_each (encrypt_entry cfg)) entry.2)) as Hloop.
  { intros cfg Hcfg. apply encrypt_requests_stable; [apply _|]. intros e.
    apply encrypt_entry_adds. intros item. by apply HE. }
  unfold encrypt_table, crypto_config_for.
  destruct (is_not_None rcc) eqn:Hn.
  - apply stable_bind_ret.
    apply stable_bind; [apply _ | by apply Hloop | intros; apply stable_ret, _].
  - apply stable_bind; [apply _ | |].
    { apply stable_bind; [apply _ | apply _crypto_config_adds; by apply HT |].
      intros c. apply stable_ret, _. }
    intros cfg. apply stable_bind; [apply _ | | intros; apply stable_ret, _].
    by apply Hloop.
Qed.


Lemma encrypt_table_modifies entry :
  stable (modifies (table_put_refs entry)) (encrypt_table self rcc entry).
Proof.
  unfold encrypt_table.
  apply stable_bind; [apply _ | apply crypto_config_for_modifies |]. intros cfg.
  apply stable_bind; [apply _ | | intros; apply stable_ret, _].
  apply for_each_modifies. intros req.
  apply for_each_modifies. intros e. apply encrypt_entry_modifies.
Qed.

Lemma transform_modifies tables :
  stable (modifies (put_refs tables)) (for_each (encrypt_table self rcc) tables).
Proof. apply for_each_modifies. intros entry. apply encrypt_table_modifies. Qed.

(** The visit of an entry in a transform that returns.  [R] is kept by all
    the transform does, [R'] by the visits of the entries. *)
Lemma transform_visit (R R' : relation World) `{!PreOrder R} `{!PreOrder R'}
    tables w us w' name reqs req entry :
  (forall name, stable R (crypto_config_for self rcc name)) ->
  (forall cfg e, stable R (encrypt_entry cfg e)) ->
  (forall cfg e, stable R' (encrypt_entry cfg e)) ->
  for_each (encrypt_table self rcc) tables w = (Ok us, w') ->
  (name, reqs) ∈ tables -> req ∈ reqs -> entry ∈ req ->
  exists w0 cfg wc w1 w2,
    R w w0 /\ crypto_config_for self rcc name w0 = (Ok cfg, wc) /\
    R w w1 /\ R' wc w1 /\ encrypt_entry cfg entry w1 = (Ok tt, w2) /\ R w2 w'.
Proof.
  intros Hc He He' H Ht Hreq Hentry.
  destruct (for_each_visit R (encrypt_table self rcc) _ _ _ _ _
              ltac:(intros; by apply encrypt_table_stable) H Ht)
    as (w0 & [] & wt & H0 & Hrun & Ht').
  unfold encrypt_table in Hrun. simpl in Hrun.
  apply bind_inv_Ok in Hrun as (cfg & wc & Hcfg & Hrun).
  apply bind_inv_Ok in Hrun as (us' & wl & Hreqs & Hrun). injection Hrun as <-.
  destruct (for_each_visit (both R R') (for_each (encrypt_entry cfg)) _ _ _ _ _
              ltac:(intros; apply stable_for_each; [apply _|]; intros;
                    by apply stable_both) Hreqs Hreq)
    as (wa & us'' & wb & [Ha Ha'] & Hrun & [Hb _]).
  destruct (for_each_visit (both R R') (encrypt_entry cfg) _ _ _ _ _
              ltac:(intros; by apply stable_both) Hrun Hentry)
    as (w1 & [] & w2 & [H1 H1'] & Hvisit & [H2 _]).
  assert (R w0 wc) as Hc0.
  { pose proof (Hc name w0) as Hs. by rewrite Hcfg in Hs. }
  exists w0, cfg, wc, w1, w2. split; [done|]. split; [done|].
  split; [by repeat (etransitivity; [eassumption|])|].
  split; [by etransitivity|]. split; [done|].
  by repeat (etransitivity; [eassumption|]).
Qed.

(** The same in a batch whose PUT bodies are all different: the body of the
    entry is, when the entry is visited, as the call found it and, when the
    transform ends, as the visit left it. *)
Lemma transform_visit_alone (R R' : relation World) `{!PreOrder R} `{!PreOrder R'}
    tables w us w' name reqs req entry :
  (forall name, stable R (crypto_config_for self rcc name)) ->
  (forall cfg e, stable R (encrypt_entry cfg e)) ->
  (forall cfg e, stable R' (encrypt_entry cfg e)) ->
  NoDup (put_refs tables) ->
  for_each (encrypt_table self rcc) tables w = (Ok us, w') ->
  (name, reqs) ∈ tables -> req ∈ reqs -> entry ∈ req ->
  exists w0 cfg wc w1 w2,
    R w w0 /\ crypto_config_for self rcc name w0 = (Ok cfg, wc) /\
    R' wc w1 /\ encrypt_entry cfg entry w1 = (Ok tt, w2) /\
    forall b, b ∈ entry_put_refs entry ->
      body_of (bodies w1) b = body_of (bodies w) b /\
      body_of (bodies w') b = body_of (bodies w2) b.
Proof.
  intros Hc He He' Hnd H Ht Hreq Hentry.
  destruct (for_each_visit_alone R (encrypt_table self rcc) table_put_refs _ _ _ _ _
              ltac:(intros; by apply encrypt_table_stable)
              encrypt_table_modifies Hnd H Ht)
    as (w0 & [] & wt & H0 & Hrun & _ & Hndt & Hfpt).
  unfold encrypt_table in Hrun. simpl in Hrun.
  apply bind_inv_Ok in Hrun as (cfg & wc & Hcfg & Hrun).
  apply bind_inv_Ok in Hrun as (us' & wl & Hreqs & Hrun). injection Hrun as <-.
  assert (bodies wc = bodies w0) as Hbc.
  { pose proof (crypto_config_for_same_bodies self rcc name w0) as Hs.
    by rewrite Hcfg in Hs. }
  destruct (for_each_visit_alone R' (for_each (encrypt_entry cfg)) request_put_refs
              _ _ _ _ _
              ltac:(intros; apply stable_for_each; [apply _|]; intros; apply He')
              ltac:(intros; apply for_each_modifies; intros;
                    apply encrypt_entry_modifies)
              Hndt Hreqs Hreq)
    as (wa & us'' & wb & Ha & Hrun & _ & Hndr & Hfpr).
  destruct (for_each_visit_alone R' (encrypt_entry cfg) entry_put_refs _ _ _ _ _
              ltac:(intros; apply He')
              ltac:(intros; apply encrypt_entry_modifies)
              Hndr Hrun Hentry)
    as (w1 & [] & w2 & H1 & Hvisit & _ & _ & Hfpe).
  exists w0, cfg, wc, w1, w2. split; [done|]. split; [done|].
  split; [by etransitivity|]. split; [done|].
  intros b Hb.
  assert (b ∈ request_put_refs req) as Hbr.
  { apply list_elem_of_bind. by exists entry. }
  assert (b ∈ table_put_refs (name, reqs)) as Hbt.
  { apply list_elem_of_bind. by exists req. }
  destruct (Hfpe b Hb) as [E1 E2]. destruct (Hfpr b Hbr) as [R1 R2].
  destruct (Hfpt b Hbt) as [T1 T2].
  split.
  - by rewrite E1, R1, Hbc, T1.
  - by rewrite T2, R2, E2.
Qed.

(** A transform that returns has called [encrypt_python_item] on every item
    the call found under a 'PutRequest', and the call has returned. *)
Lemma transform_logs tables w us w' item :
  for_each (encrypt_table self rcc) tables w = (Ok us, w') ->
  put_item w tables item ->
  exists cfg h encrypted,
    encrypt_python_item item cfg h = Ok encrypted /\
    EvEncrypt item cfg ∈ new_events w w'.
Proof.
  intros H (name & reqs & req & b & Ht & Hreq & Hentry & Hitem).
  destruct (transform_visit tracks tracks _ _ _ _ _ _ _ _
              (crypto_config_for_tracks self rcc)
              encrypt_entry_tracks encrypt_entry_tracks H Ht Hreq Hentry)
    as (w0 & cfg & wc & w1 & w2 & _ & _ & [A1 T1] & _ & Hvisit & [A2 _]).
  destruct (T1 _ _ Hitem) as [Hsame|(cfg' & h & enc & Henc & Hin)].
  - apply encrypt_entry_put_Ok in Hvisit as (item' & enc & Hi & Henc & ->).
    rewrite Hsame, Hitem in Hi. injection Hi as <-.
    exists cfg, (heap w1), enc. split; [done|].
    eapply (new_events_part w w1 _ w'); [done| |exact A2|].
    + eexists. split; [reflexivity|]. by apply Forall_forall.
    + rewrite (new_events_app w1 _ [EvEncrypt item cfg]) by done. left.
  - exists cfg', h, enc. split; [done|].
    pose proof (encrypt_entry_tracks cfg ("PutRequest", b) w1) as [A12 _].
    rewrite Hvisit in A12. simpl in A12.
    rewrite (new_events_trans _ _ w w1 w') by (done || by etransitivity).
    apply elem_of_app. by left.
Qed.

Lemma encrypt_table_no_put entry w :
  Forall (Forall (fun e : string * ref => e.1 ≠ "PutRequest")) entry.2 ->
  encrypt_table self rcc entry w
  = match crypto_config_for self rcc entry.1 w with
    | (Ok _, w1) => (Ok tt, w1)
    | (Raise e, w1) => (Raise e, w1)
    end.
Proof.
  intros Hno. unfold encrypt_table, bind at 1.
  destruct (crypto_config_for self rcc entry.1 w) as [[cfg|e] w1]; [|done].
  assert (for_each (for_each (encrypt_entry cfg)) entry.2 w1
          = (Ok (map (fun req => map (fun _ => tt) req) entry.2), w1)) as Hloop.
  { clear -Hno. induction Hno as [|req reqs Hreq _ IH]; [done|].
    cbn [for_each]. unfold bind at 1.
    assert (for_each (encrypt_entry cfg) req w1 = (Ok (map (fun _ => tt) req), w1))
      as ->.
    { clear -Hreq. induction Hreq as [|e es He _ IH]; [done|].
      cbn [for_each]. unfold bind at 1. rewrite encrypt_entry_not_put by done.
      unfold bind at 1. by rewrite IH. }
    unfold bind at 1. by rewrite IH. }
  unfold bind. by rewrite Hloop.
Qed.

End Transform.

(** *** The call *)

Lemma batch_write_item_run self kwargs w tables :
  kwargs !! "RequestItems" = Some (VWriteItems tables) ->
  batch_write_item self kwargs w =
  match for_each (encrypt_table self (default VNone (kwargs !! "crypto_config")))
                 tables w with
  | (Raise e, w1) => (Raise e, w1)
  | (Ok _, w1) => send_batch_write (delete "crypto_config" kwargs) w1
  end.
Proof.
  intros Hr. unfold batch_write_item. simpl. unfold bind at 1, write_request_items.
  rewrite lookup_delete_ne, Hr by done. simpl. unfold bind at 1.
  by destruct (for_each _ tables w) as [[us|e] w1].
Qed.

Lemma batch_write_item_no_request_items self kwargs w :
  (forall tables, kwargs !! "RequestItems" ≠ Some (VWriteItems tables)) ->
  exists e, batch_write_item self kwargs w = (Raise e, w).
Proof.
  intros Hr. unfold batch_write_item. simpl. unfold bind at 1, write_request_items.
  rewrite lookup_delete_ne by done.
  destruct (kwargs !! "RequestItems") as [[]|] eqn:E; simpl; eauto.
  by destruct (Hr r).
Qed.

(** What the call of the boto3 [batch_write_item] does to the world. *)
Lemma send_batch_write_run kw w :
  send_batch_write kw w
  = ((resource_batch_write_item kw (bodies w) (ext w)).1,
     mkWorld (heap w) (bodies w) (resource_batch_write_item kw (bodies w) (ext w)).2
             (trace w ++ [EvBatchWrite kw])).
Proof.
  unfold send_batch_write, call.
  by destruct (resource_batch_write_item kw (bodies w) (ext w)).
Qed.

Lemma transform_not_sent self rcc tables :
  stable (adds (fun ev => ¬ is_batch_write ev))
         (for_each (encrypt_table self rcc) tables).
Proof.
  apply stable_for_each; [apply _|]. intros entry _.
  apply encrypt_table_adds; [by intros _ [] | by intros ? ? _ []].
Qed.

(** The events of a [batch_write_item] call: those of the transform, none of
    them a call of the boto3 [batch_write_item], then that call if the
    transform returned. *)
Lemma batch_write_item_events self kwargs w kw :
  EvBatchWrite kw ∈ new_events w (batch_write_item self kwargs w).2 ->
  exists tables us w1,
    kwargs !! "RequestItems" = Some (VWriteItems tables) /\
    for_each (encrypt_table self (default VNone (kwargs !! "crypto_config")))
             tables w = (Ok us, w1) /\
    kw = delete "crypto_config" kwargs /\
    batch_write_item self kwargs w = send_batch_write kw w1 /\
    Forall (fun ev => ¬ is_batch_write ev) (new_events w w1) /\
    new_events w (batch_write_item self kwargs w).2
    = new_events w w1 ++ [EvBatchWrite kw].
Proof.
  intros Hin.
  destruct (kwargs !! "RequestItems") as [v|] eqn:Hr; cycle 1.
  { destruct (batch_write_item_no_request_items self kwargs w) as [e He].
    - intros tables. by rewrite Hr.
    - rewrite He in Hin. simpl in Hin. rewrite new_events_same in Hin.
      by apply elem_of_nil in Hin. }
  assert ((exists tables, v = VWriteItems tables) \/ forall tables, v ≠ VWriteItems tables)
    as [[tables ->]|Hv] by (destruct v; eauto); cycle 1.
  { destruct (batch_write_item_no_request_items self kwargs w) as [e He].
    - intros tables Ht. apply (Hv tables). congruence.
    - rewrite He in Hin. simpl in Hin. rewrite new_events_same in Hin.
      by apply elem_of_nil in Hin. }
  rewrite (batch_write_item_run _ _ _ _ Hr) in Hin |- *.
  set (rcc := default VNone (kwargs !! "crypto_config")) in *.
  pose proof (transform_not_sent self rcc tables w) as Hadds.
  destruct (for_each _ tables w) as [[us|e] w1] eqn:Hloop; simpl in *.
  - apply adds_new_events in Hadds as [Htr Hno].
    set (kw' := delete "crypto_config" kwargs) in *.
    assert (new_events w (send_batch_write kw' w1).2
            = new_events w w1 ++ [EvBatchWrite kw']) as Hev.
    { apply new_events_app. rewrite send_batch_write_run. simpl.
      by rewrite Htr at 1; rewrite <- app_assoc. }
    rewrite Hev in Hin |- *.
    apply elem_of_app in Hin as [Hin|Hin].
    { rewrite Forall_forall in Hno. by destruct (Hno _ Hin). }
    apply list_elem_of_singleton in Hin. injection Hin as ->.
    by exists tables, us, w1.
  - apply adds_new_events in Hadds as [_ Hno].
    rewrite Forall_forall in Hno. by destruct (Hno _ Hin).
Qed.

Lemma encrypt_entry_keeps_call_objects rcc cfg e :
  stable (both keeps_objects (same_heap_if_given rcc)) (encrypt_entry cfg e).
Proof.
  intros w. destruct (encrypt_entry_reads_only cfg e w) as [Hh _]. split.
  - by apply same_heap_keeps_objects.
  - by intros _.
Qed.

(** What a transform that returns has done to a batch whose PUT bodies are
    held once. *)
Lemma transform_encrypts self rcc tables w us w' :
  for_each (encrypt_table self rcc) tables w = (Ok us, w') ->
  held_once tables -> puts_encrypted self rcc tables w w'.
Proof.
  intros H [Hnd Hother] name reqs req request_type b Ht Hreq Hentry. split.
  - intros Hne. pose proof (transform_modifies self rcc tables w) as Hm.
    rewrite H in Hm. apply Hm. by eapply Hother.
  - intros ->.
    destruct (transform_visit_alone self rcc
                (both keeps_objects (same_heap_if_given rcc)) reads_only
                _ _ _ _ _ _ _ _
                ltac:(intros; apply stable_both;
                      [apply crypto_config_for_keeps_objects
                      |apply crypto_config_for_same_heap_if_given])
                (encrypt_entry_keeps_call_objects rcc)
                encrypt_entry_reads_only Hnd H Ht Hreq Hentry)
      as (w0 & cfg & wc & w1 & w2 & [K0 S0] & Hcfg & [Hh _] & Hvisit & Hfp).
    destruct (Hfp b ltac:(left)) as [E1 E2].
    apply encrypt_entry_put_Ok in Hvisit as (item & enc & Hi & Henc & ->).
    simpl in E2. rewrite body_of_insert in E2. rewrite E1 in Hi, E2.
    exists item, cfg, (heap wc), enc. split; [done|]. split.
    + by exists w0, wc.
    + split; [by rewrite <- Hh|done].
Qed.

(** C3, amended: whatever [batch_write_item] calls the boto3
    [batch_write_item] with is the request it was given, less
    [crypto_config], made of the caller's own objects; no body other than
    those held under 'PutRequest' has been assigned into; and when every
    body held under 'PutRequest' is held there once and nowhere else in the
    batch, the bodies of the entries other than 'PutRequest' (the deletes)
    are exactly as given, and the body of a 'PutRequest' has its 'Item',
    and nothing else, replaced by [encrypt_python_item] of the item given,
    under the configuration of the call, or else the one resolved for the
    table. *)
Theorem batch_write_item_encrypts_puts
    (self : EncryptedResource) (kwargs : Kwargs) (w : World) (kw : Kwargs) :
  EvBatchWrite kw ∈ new_events w (batch_write_item self kwargs w).2 ->
  exists tables w1,
    kwargs !! "RequestItems" = Some (VWriteItems tables) /\
    kw = delete "crypto_config" kwargs /\
    batch_write_item self kwargs w = send_batch_write kw w1 /\
    (forall b, b ∉ put_refs tables ->
       body_of (bodies w1) b = body_of (bodies w) b) /\
    (held_once tables ->
       puts_encrypted self (default VNone (kwargs !! "crypto_config")) tables w w1).
Proof.
  intros Hin.
  apply batch_write_item_events in Hin
    as (tables & us & w1 & Hr & Hloop & -> & Hrun & _ & _).
  exists tables, w1. do 3 (split; [done|]). split.
  - pose proof (transform_modifies self (default VNone (kwargs !! "crypto_config"))
                  tables w) as Hm.
    rewrite Hloop in Hm. exact Hm.
  - by eapply transform_encrypts.
Qed.

(** C7: in a [batch_write_item] call, the boto3 [batch_write_item] is called
    at most once and last, after [encrypt_python_item] was called on the item
    of every PUT request of every table; if the transform raises, the call
    raises the same exception and the boto3 [batch_write_item] is not called;
    in particular this is so when the batch holds a PUT item that
    [encrypt_python_item] does not encrypt. *)
Theorem batch_write_item_no_partial_submission
    (self : EncryptedResource) (kwargs : Kwargs) (w : World) :
  let run := batch_write_item self kwargs w in
  let evs := new_events w run.2 in
  (forall kw, EvBatchWrite kw ∈ evs ->
     exists tables pre,
       kwargs !! "RequestItems" = Some (VWriteItems tables) /\
       evs = pre ++ [EvBatchWrite kw] /\
       Forall (fun ev => ¬ is_batch_write ev) pre /\
       forall item, put_item w tables item -> exists cfg, EvEncrypt item cfg ∈ pre) /\
  (forall tables e w1,
     kwargs !! "RequestItems" = Some (VWriteItems tables) ->
     for_each (encrypt_table self (default VNone (kwargs !! "crypto_config")))
              tables w = (Raise e, w1) ->
     run = (Raise e, w1) /\ forall kw, EvBatchWrite kw ∉ evs) /\
  (forall tables item,
     kwargs !! "RequestItems" = Some (VWriteItems tables) ->
     put_item w tables item ->
     (forall cfg h encrypted, encrypt_python_item item cfg h ≠ Ok encrypted) ->
     (exists e, run.1 = Raise e) /\ forall kw, EvBatchWrite kw ∉ evs).
Proof.
  simpl. split; [|split].
  - intros kw Hin.
    apply batch_write_item_events in Hin
      as (tables & us & w1 & Hr & Hloop & -> & _ & Hno & Hev).
    exists tables, (new_events w w1). split; [done|]. split; [done|].
    split; [done|]. intros item Hput.
    destruct (transform_logs _ _ _ _ _ _ _ Hloop Hput) as (cfg & _ & _ & _ & Hev').
    by exists cfg.
  - intros tables e w1 Hr Hloop. rewrite (batch_write_item_run _ _ _ _ Hr), Hloop.
    split; [done|]. intros kw Hin. simpl in Hin.
    pose proof (transform_not_sent self (default VNone (kwargs !! "crypto_config"))
                  tables w) as Hadds.
    rewrite Hloop in Hadds. apply adds_new_events in Hadds as [_ Hno].
    rewrite Forall_forall in Hno. by destruct (Hno _ Hin).
  - intros tables item Hr Hput Hfail.
    assert (forall us w1,
              for_each (encrypt_table self (default VNone (kwargs !! "crypto_config")))
                       tables w ≠ (Ok us, w1)) as Hnot.
    { intros us w1 Hloop.
      destruct (transform_logs _ _ _ _ _ _ _ Hloop Hput) as (cfg & h & enc & Henc & _).
      by apply (Hfail cfg h enc). }
    split.
    + rewrite (batch_write_item_run _ _ _ _ Hr).
      destruct (for_each _ tables w) as [[us|e] w1] eqn:Hloop; simpl; [|by exists e].
      by destruct (Hnot us w1).
    + intros kw Hin.
      apply batch_write_item_events in Hin as (tables0 & us & w1 & Hr0 & Hloop & _).
      rewrite Hr in Hr0. injection Hr0 as <-. by destruct (Hnot us w1).
Qed.

(** ** Calls that return *)

Lemma for_each_returns {A B} (f : A -> M B) (Inv : World -> Prop) xs w :
  Inv w ->
  (forall x w, x ∈ xs -> Inv w -> exists y w', f x w = (Ok y, w') /\ Inv w') ->
  exists ys w', for_each f xs w = (Ok ys, w') /\ Inv w'.
Proof.
  revert w. induction xs as [|x xs IH]; intros w Hw Hf; [by exists [], w|].
  cbn [for_each]. unfold bind.
  destruct (Hf x w ltac:(left) Hw) as (y & w1 & -> & Hw1).
  destruct (IH w1 Hw1) as (ys & w2 & -> & Hw2); [intros; apply Hf; [by right|done]|].
  by exists (y :: ys), w2.
Qed.

Lemma crypto_config_for_total self rcc name w :
  (is_not_None rcc = false ->
     forall name x, exists ti x', cache_table_info name x = (Ok ti, x')) ->
  can_resolve self rcc w ->
  exists cfg w1,
    crypto_config_for self rcc name w = (Ok cfg, w1) /\ can_resolve self rcc w1.
Proof.
  intros Hcache Hw. unfold crypto_config_for, can_resolve in *.
  destruct (is_not_None rcc); [by exists rcc, w|].
  destruct (Hw eq_refl) as [aa Haa].
  destruct (Hcache eq_refl name (ext w)) as (ti & x & Hti).
  unfold bind. rewrite _crypto_config_run, Hti, Haa. simpl.
  eexists _, _. split; [reflexivity|]. intros _. simpl.
  rewrite lookup_insert_ne; [by rewrite Haa|]. apply fresh_ref_ne. by rewrite Haa.
Qed.

Lemma can_resolve_reads_only self rcc w w' :
  reads_only w w' -> can_resolve self rcc w -> can_resolve self rcc w'.
Proof. intros [Hh _] Hw Hn. rewrite Hh. by apply Hw. Qed.

Lemma crypto_config_for_given self rcc name w cfg w1 :
  crypto_config_for self rcc name w = (Ok cfg, w1) -> rcc ≠ VNone -> cfg = rcc.
Proof.
  intros H Hn. rewrite crypto_config_for_override in H by done. by injection H.
Qed.

Section Returning.
Context (self : EncryptedResource) (rcc : PyVal) (w0 : World).
Hypothesis cache_answers :
  is_not_None rcc = false ->
  forall name x, exists ti x', cache_table_info name x = (Ok ti, x').

(** The configuration and the store that a transform of the call may be
    made with: any, unless the call is given a configuration. *)
Definition of_call (cfg : PyVal) (h : Heap) : Prop :=
  rcc ≠ VNone -> cfg = rcc /\ h = heap w0.

Lemma crypto_config_for_returns name w :
  can_resolve self rcc w -> same_heap_if_given rcc w0 w ->
  exists cfg w1,
    crypto_config_for self rcc name w = (Ok cfg, w1) /\
    can_resolve self rcc w1 /\ same_heap_if_given rcc w0 w1 /\
    bodies w1 = bodies w /\ of_call cfg (heap w1).
Proof using Type cache_answers.
  intros Hw Hh.
  destruct (crypto_config_for_total self rcc name w cache_answers Hw)
    as (cfg & w1 & Hrun & Hw1).
  exists cfg, w1. split; [done|]. split; [done|].
  pose proof (crypto_config_for_same_heap_if_given self rcc name w) as Hs.
  pose proof (crypto_config_for_same_bodies self rcc name w) as Hb.
  rewrite Hrun in Hs, Hb. simpl in *.
  assert (same_heap_if_given rcc w0 w1) as Hh1 by (by etransitivity).
  split; [done|]. split; [done|]. intros Hn.
  split; [by eapply crypto_config_for_given | by apply Hh1].
Qed.

Lemma decrypt_tables_return raw w :
  (forall entry item cfg h, entry ∈ raw -> item ∈ entry.2 -> of_call cfg h ->
     exists out, decrypt_python_item item cfg h = Ok out) ->
  can_resolve self rcc w -> same_heap_if_given rcc w0 w ->
  exists decrypted w1, for_each (decrypt_table self rcc) raw w = (Ok decrypted, w1).
Proof using Type cache_answers.
  intros Hdec Hw Hh.
  destruct (for_each_returns (decrypt_table self rcc)
              (fun w => can_resolve self rcc w /\ same_heap_if_given rcc w0 w) raw w)
    as (dec & w1 & Hrun & _); [done| |by exists dec, w1].
  intros entry wa Hentry [Hwa Hha]. unfold decrypt_table, bind.
  destruct (crypto_config_for_returns entry.1 wa Hwa Hha)
    as (cfg & wb & -> & Hwb & Hhb & _ & Hcfg).
  destruct (for_each_returns (decrypt cfg)
              (fun w => can_resolve self rcc w /\ same_heap_if_given rcc w0 w /\
                        heap w = heap wb) entry.2 wb)
    as (items & wc & -> & Hwc & Hhc & _); [done| |by eexists _, _].
  intros item wd Hitem (Hwd & Hhd & Heq). unfold decrypt, call_pure.
  destruct (Hdec entry item cfg (heap wd) Hentry Hitem) as [out ->];
    [by rewrite Heq|].
  eexists _, _. split; [reflexivity|]. simpl. done.
Qed.

Lemma encrypt_entry_returns tables cfg entry w :
  (forall item cfg h, of_call cfg h ->
     exists encrypted, encrypt_python_item item cfg h = Ok encrypted) ->
  entry_put_refs entry ⊆ put_refs tables ->
  of_call cfg (heap w) -> puts_have_items tables w ->
  exists w', encrypt_entry cfg entry w = (Ok tt, w') /\
             reads_only w w' /\ puts_have_items tables w'.
Proof.
  intros Henc Hsub Hcfg Hitems. unfold entry_put_refs in Hsub.
  entry_cases w cfg entry.
  - eexists. split; [reflexivity|]. split; [done|]. intros b Hb. simpl.
    destruct (decide (entry.2 = b)) as [<-|Hne].
    + rewrite body_of_insert, lookup_insert_eq. by eexists.
    + rewrite body_of_insert_ne by done. by apply Hitems.
  - destruct (Henc item cfg (heap w) Hcfg) as [enc' Henc']. congruence.
  - destruct (Hitems entry.2) as [item Hi]; [apply Hsub; left|congruence].
  - by exists w.
Qed.

Lemma transform_returns tables w :
  (forall item cfg h, of_call cfg h ->
     exists encrypted, encrypt_python_item item cfg h = Ok encrypted) ->
  can_resolve self rcc w -> same_heap_if_given rcc w0 w ->
  puts_have_items tables w ->
  exists us w1, for_each (encrypt_table self rcc) tables w = (Ok us, w1).
Proof using Type cache_answers.
  intros Henc Hw Hh Hitems.
  set (Inv := fun w => can_resolve self rcc w /\ same_heap_if_given rcc w0 w /\
                       puts_have_items tables w).
  destruct (for_each_returns (encrypt_table self rcc) Inv tables w)
    as (us & w1 & Hrun & _); [done| |by exists us, w1].
  intros [name reqs] wa Ht (Hwa & Hha & Hia). unfold encrypt_table, bind. simpl.
  destruct (crypto_config_for_returns name wa Hwa Hha)
    as (cfg & wb & -> & Hwb & Hhb & Hbb & Hcfg).
  assert (puts_have_items tables wb) as Hib.
  { intros b Hb. rewrite Hbb. by apply Hia. }
  set (Inv' := fun w => Inv w /\ heap w = heap wb).
  destruct (for_each_returns (for_each (encrypt_entry cfg)) Inv' reqs wb)
    as (us' & wc & -> & Hc & _); [done| |by exists tt, wc].
  intros req wd Hreq Hd.
  apply (for_each_returns (encrypt_entry cfg) Inv'); [done|].
  intros entry we Hentry ((Hwe & Hhe & Hie) & Heq).
  destruct (encrypt_entry_returns tables cfg entry we Henc) as (wf & Hrun & Hro & Hif);
    [| by rewrite Heq | done |].
  - intros b Hb. apply list_elem_of_bind. exists (name, reqs). split; [|done].
    apply list_elem_of_bind. exists req. split; [|done].
    apply list_elem_of_bind. by exists entry.
  - exists tt, wf. split; [done|].
    split; [|destruct Hro; congruence]. split; [by eapply can_resolve_reads_only|].
    split; [|done]. intros Hn. destruct Hro as [-> _]. by apply Hhe.
Qed.

End Returning.

(** ** A configuration given with the call *)

Lemma adds_send_batch_write (P : Event -> Prop) kw :
  P (EvBatchWrite kw) -> stable (adds P) (send_batch_write kw).
Proof.
  intros HP w. rewrite send_batch_write_run.
  exists [EvBatchWrite kw]. split; [done | by constructor].
Qed.

Lemma batch_get_item_override_events self kwargs v w :
  kwargs !! "crypto_config" = Some v -> v ≠ VNone ->
  adds (override_event v) w (batch_get_item self kwargs w).2.
Proof.
  intros Hc Hv. revert w. change (stable (adds (override_event v))
                                        (batch_get_item self kwargs)).
  unfold batch_get_item. simpl. rewrite Hc. simpl.
  apply stable_bind; [apply _ | |].
  { unfold get_request_items. destruct (delete _ kwargs !! "RequestItems") as [[]|];
      first [apply stable_ret, _ | apply stable_raise, _]. }
  intros r. apply stable_bind; [apply _ | |].
  { apply stable_for_each; [apply _|]. intros entry _. by apply adds_call_pure. }
  intros _. apply stable_bind; [apply _ | |].
  { apply adds_call. simpl. apply lookup_delete_eq. }
  intros resp. apply after_get_adds.
  - intros Hn. by destruct v.
  - intros item cfg Hcfg. simpl. apply Hcfg. by destruct v.
Qed.

Lemma transform_override_events self v tables :
  v ≠ VNone ->
  stable (adds (override_event v)) (for_each (encrypt_table self v) tables).
Proof.
  intros Hv. apply stable_for_each; [apply _|]. intros entry _.
  apply encrypt_table_adds.
  - intros Hn. by destruct v.
  - intros item cfg Hcfg. simpl. apply Hcfg. by destruct v.
Qed.

Lemma batch_write_item_override_events self kwargs v w :
  kwargs !! "crypto_config" = Some v -> v ≠ VNone ->
  adds (override_event v) w (batch_write_item self kwargs w).2.
Proof.
  intros Hc Hv. revert w. change (stable (adds (override_event v))
                                        (batch_write_item self kwargs)).
  unfold batch_write_item. simpl. rewrite Hc. simpl.
  apply stable_bind; [apply _ | |].
  { unfold write_request_items.
    destruct (delete _ kwargs !! "RequestItems") as [[]|];
      first [apply stable_ret, _ | apply stable_raise, _]. }
  intros tables. apply stable_bind; [apply _ | by apply transform_override_events |].
  intros _. apply adds_send_batch_write. simpl. apply lookup_delete_eq.
Qed.

Lemma config_used_override self v h0 name cfg h :
  v ≠ VNone -> config_used self v h0 name cfg h -> cfg = v /\ h = h0.
Proof. intros Hv. unfold config_used. by destruct v. Qed.

Lemma config_of_call_override self v w name cfg h :
  v ≠ VNone -> config_of_call self v w name cfg h -> cfg = v /\ h = heap w.
Proof.
  intros Hv (w0 & w1 & _ & Hh & Hrun & ->).
  rewrite crypto_config_for_override in Hrun by done. injection Hrun as <- <-.
  split; [done|]. by apply Hh.
Qed.

Lemma transform_override_reads_only self v tables :
  v ≠ VNone -> stable reads_only (for_each (encrypt_table self v) tables).
Proof.
  intros Hv. apply stable_for_each; [apply _|]. intros entry _.
  apply encrypt_table_stable; [apply _ | | apply encrypt_entry_reads_only].
  rewrite crypto_config_for_override by done. apply stable_ret, _.
Qed.

Lemma put_refs_inv tables b :
  b ∈ put_refs tables ->
  exists name reqs req,
    (name, reqs) ∈ tables /\ req ∈ reqs /\ ("PutRequest", b) ∈ req.
Proof.
  intros Hb. apply list_elem_of_bind in Hb as ([name reqs] & Hb & Ht).
  apply list_elem_of_bind in Hb as (req & Hb & Hreq).
  apply list_elem_of_bind in Hb as ([request_type b'] & Hb & Hentry).
  unfold entry_put_refs in Hb. simpl in *.
  destruct (String.eqb_spec request_type "PutRequest") as [->|Hne].
  - apply list_elem_of_singleton in Hb as ->. by exists name, reqs, req.
  - by apply elem_of_nil in Hb.
Qed.

(** C4: when a [batch_get_item] or [batch_write_item] call is given a
    [crypto_config], the boto3 resource is called without it, the table-info
    cache is not called at all, and every [decrypt_python_item] and
    [encrypt_python_item] call of the call is made with the configuration
    given.  What [batch_get_item] returns holds the items decrypted under
    it (in the object store as the call found it), and [batch_get_item]
    does return that, after the boto3 call, when the request is valid, the
    boto3 resource answers and [decrypt_python_item] returns on the items
    received.  [batch_write_item] reaches the boto3 resource, with every
    PUT item encrypted under the configuration given and nothing else
    changed, when every 'PutRequest' has an 'Item' and
    [encrypt_python_item] returns under that configuration. *)
Theorem crypto_config_override_used_verbatim
    (self : EncryptedResource) (kwargs : Kwargs) (v : PyVal) (w : World) :
  kwargs !! "crypto_config" = Some v -> v ≠ VNone ->
  let get := batch_get_item self kwargs w in
  let put := batch_write_item self kwargs w in
  let kw := delete "crypto_config" kwargs in
  Forall (override_event v) (new_events w get.2) /\
  Forall (override_event v) (new_events w put.2) /\
  (forall response', get.1 = Ok response' ->
     exists response x raw decrypted,
       resource_batch_get_item kw (ext w) = (Ok response, x) /\
       response !! "Responses" = Some (VResponses raw) /\
       response' !! "Responses" = Some (VResponses decrypted) /\
       Forall2 (fun entry entry' =>
                  entry'.1 = entry.1 /\
                  Forall2 (fun item item' =>
                             decrypt_python_item item v (heap w) = Ok item')
                          entry.2 entry'.2)
               raw decrypted) /\
  (forall r response x raw,
     kwargs !! "RequestItems" = Some (VGetItems r) ->
     Forall (fun entry => validate_get_arguments entry.2 = Ok tt) r ->
     resource_batch_get_item kw (ext w) = (Ok response, x) ->
     response !! "Responses" = Some (VResponses raw) ->
     (forall entry item, entry ∈ raw -> item ∈ entry.2 ->
        exists out, decrypt_python_item item v (heap w) = Ok out) ->
     EvBatchGet kw ∈ new_events w get.2 /\
     exists decrypted,
       get.1 = Ok (<["Responses" := VResponses decrypted]> response) /\
       Forall2 (fun entry entry' =>
                  entry'.1 = entry.1 /\
                  Forall2 (fun item item' =>
                             decrypt_python_item item v (heap w) = Ok item')
                          entry.2 entry'.2)
               raw decrypted) /\
  (forall tables,
     kwargs !! "RequestItems" = Some (VWriteItems tables) ->
     puts_have_items tables w ->
     (forall item, exists encrypted,
         encrypt_python_item item v (heap w) = Ok encrypted) ->
     exists w1,
       put = send_batch_write kw w1 /\
       EvBatchWrite kw ∈ new_events w put.2 /\
       heap w1 = heap w /\ ext w1 = ext w /\
       (forall item, put_item w tables item -> EvEncrypt item v ∈ new_events w w1) /\
       (forall b, b ∉ put_refs tables ->
          body_of (bodies w1) b = body_of (bodies w) b) /\
       (held_once tables ->
          forall b, b ∈ put_refs tables ->
            exists item encrypted,
              body_of (bodies w) b !! "Item" = Some item /\
              encrypt_python_item item v (heap w) = Ok encrypted /\
              body_of (bodies w1) b
              = <["Item" := encrypted]> (body_of (bodies w) b))).
Proof.
  intros Hc Hv. simpl.
  assert (forall resp' w', batch_get_item self kwargs w = (Ok resp', w') ->
            exists response x raw decrypted,
              resource_batch_get_item (delete "crypto_config" kwargs) (ext w)
              = (Ok response, x) /\
              response !! "Responses" = Some (VResponses raw) /\
              resp' = <["Responses" := VResponses decrypted]> response /\
              Forall2 (fun entry entry' =>
                         entry'.1 = entry.1 /\
                         Forall2 (fun item item' =>
                                    decrypt_python_item item v (heap w) = Ok item')
                                 entry.2 entry'.2)
                      raw decrypted) as Hcontent.
  { intros resp' w' Hrun.
    apply batch_get_item_inv_Ok in Hrun
      as (r & resp & x & raw & dec & w2 & _ & _ & Hres & Hraw & Hheap & Hdec & ->).
    apply for_each_decrypt_table_Ok in Hdec. rewrite Hc, Hheap in Hdec. simpl in Hdec.
    exists resp, x, raw, dec. do 3 (split; [done|]).
    eapply Forall2_impl; [exact Hdec|].
    intros e e' (Hn & cfg & h & Hcfg & HF). split; [done|].
    by apply config_used_override in Hcfg as [-> ->]. }
  split; [by apply adds_new_events, batch_get_item_override_events|].
  split; [by apply adds_new_events, batch_write_item_override_events|].
  split; [|split].
  - intros resp' Hget.
    assert (batch_get_item self kwargs w
            = (Ok resp', (batch_get_item self kwargs w).2)) as Hrun.
    { rewrite <- Hget. apply surjective_pairing. }
    destruct (Hcontent _ _ Hrun) as (resp & x & raw & dec & Hres & Hraw & -> & HF).
    exists resp, x, raw, dec. do 2 (split; [done|]).
    split; [apply lookup_insert_eq|done].
  - intros r resp x raw Hr Hvalid Hres Hraw Hdec.
    pose proof (batch_get_item_valid_run self kwargs w r Hr Hvalid) as Hrun.
    simpl in Hrun. rewrite Hres, Hc in Hrun. simpl in Hrun.
    set (w1 := mkWorld _ _ _ _) in Hrun.
    assert (adds (fun _ => True) w w1) as Ha1.
    { eexists. split; [reflexivity|]. by apply Forall_forall. }
    assert (adds (fun _ => True) w1 (after_get self v resp w1).2) as Ha2.
    { by apply after_get_adds. }
    split.
    { rewrite Hrun, (new_events_trans _ _ _ _ _ Ha1 Ha2).
      apply elem_of_app. left. rewrite (new_events_app w w1 _ eq_refl).
      apply elem_of_app. right. left. }
    destruct (decrypt_tables_return self v w (fun Hn => ltac:(by destruct v)) raw w1)
      as (dec & w2 & Hloop).
    { intros entry item cfg h Hentry Hitem Hcfg.
      destruct (Hcfg Hv) as [-> ->]. by eapply Hdec. }
    { intros Hn. by destruct v. }
    { by intros _. }
    assert (batch_get_item self kwargs w
            = (Ok (<["Responses" := VResponses dec]> resp), w2)) as Hok.
    { rewrite Hrun. unfold after_get, bind at 1, get_responses. rewrite Hraw. simpl.
      unfold bind. by rewrite Hloop. }
    destruct (Hcontent _ _ Hok) as (resp0 & x0 & raw0 & dec0 & Hres0 & Hraw0 & Heq & HF).
    rewrite Hres in Hres0. injection Hres0 as <- <-.
    rewrite Hraw in Hraw0. injection Hraw0 as <-.
    exists dec0. split; [by rewrite Hok, Heq|done].
  - intros tables Hr Hitems Henc.
    rewrite (batch_write_item_run _ _ _ _ Hr), Hc. simpl.
    destruct (transform_returns self v w (fun Hn => ltac:(by destruct v)) tables w)
      as (us & w1 & Hloop).
    { intros item cfg h Hcfg. by destruct (Hcfg Hv) as [-> ->]. }
    { intros Hn. by destruct v. }
    { by intros _. }
    { done. }
    rewrite Hloop. exists w1. split; [done|].
    pose proof (transform_override_events self v tables Hv w) as Hov.
    pose proof (transform_override_reads_only self v tables Hv w) as [Hh Hx].
    pose proof (transform_modifies self v tables w) as Hm.
    rewrite Hloop in Hov, Hh, Hx, Hm. simpl in *.
    split.
    { rewrite send_batch_write_run. simpl. destruct Hov as (evs & Htr & _).
      rewrite (new_events_app w _ (evs ++ [EvBatchWrite (delete "crypto_config" kwargs)])).
      - apply elem_of_app. right. left.
      - simpl. by rewrite Htr, <- app_assoc. }
    do 2 (split; [done|]). split; [|split; [done|]].
    + intros item Hput.
      destruct (transform_logs _ _ _ _ _ _ _ Hloop Hput) as (cfg & _ & _ & _ & Hin).
      apply adds_new_events in Hov as [_ Hov]. rewrite Forall_forall in Hov.
      specialize (Hov _ Hin). simpl in Hov. by subst cfg.
    + intros Honce b Hb.
      destruct (put_refs_inv _ _ Hb) as (name & reqs & req & Ht & Hreq & Hentry).
      destruct (transform_encrypts _ _ _ _ _ _ Hloop Honce _ _ _ _ _ Ht Hreq Hentry)
        as [_ Hput].
      destruct (Hput eq_refl) as (item & cfg & h & enc & Hi & Hcfg & Henc' & Hbody).
      apply config_of_call_override in Hcfg as [-> ->]; [|done].
      by exists item, enc.
Qed.

(** ** Table *)

(** C10: [Table(name, **kwargs)] always asks the table-info cache for the
    schema of [name], whatever [kwargs] holds: a 'table_info' keyword
    argument changes nothing, the table returned carries the cache's answer,
    and when the cache raises the call raises, overrides or not. *)
Theorem Table_always_looks_up_cache
    (self : EncryptedResource) (name : string) (kwargs : Kwargs) (w : World) :
  (forall v, Table self name (<["table_info" := v]> kwargs) w = Table self name kwargs w) /\
  new_events w (Table self name kwargs w).2 = [EvTable name; EvTableInfo name] /\
  (forall table, (Table self name kwargs w).1 = Ok table ->
     exists x, cache_table_info name (ext w) = (Ok (et_table_info table), x)) /\
  (forall e x, cache_table_info name (ext w) = (Raise e, x) ->
     (Table self name kwargs w).1 = Raise e).
Proof.
  split; [|split; [|split]].
  - intros v. unfold Table, kwargs_get. by rewrite !lookup_insert_ne by done.
  - apply new_events_app. unfold Table, bind, emit, table_info, call, ret. simpl.
    destruct (cache_table_info name (ext w)) as [[ti|e] x]; simpl;
      by rewrite <- app_assoc.
  - intros table. unfold Table, bind, emit, table_info, call, ret. simpl.
    destruct (cache_table_info name (ext w)) as [[ti|e] x]; simpl; [|done].
    intros [= <-]. by exists x.
  - intros e x Hx. unfold Table, bind, emit, table_info, call, ret. simpl.
    by rewrite Hx.
Qed.

(** ** The tables collection manager *)

(** What a round of the loop of [_transform_table] does, case by case. *)
Lemma round_run self it w :
  round self it w =
  match iter_next it (ext w) with
  | (Raise err, x) =>
      (Raise err, mkWorld (heap w) (bodies w) x (trace w ++ [EvNext (Raise err)]))
  | (Ok None, x) =>
      (Ok None, mkWorld (heap w) (bodies w) x (trace w ++ [EvNext (Ok None)]))
  | (Ok (Some (t, it')), x) =>
      let tr := trace w ++ [EvNext (Ok (Some t)); EvTableInfo (resource_name t)] in
      match cache_table_info (resource_name t) x with
      | (Raise err, x') => (Raise err, mkWorld (heap w) (bodies w) x' tr)
      | (Ok ti, x') =>
          (Ok (Some (mkEncryptedTable
                       t
                       (VMaterialsProvider (tcm_materials_provider self))
                       (VAttributeActions (tcm_attribute_actions self))
                       None ti, it')),
           mkWorld (heap w) (bodies w) x' tr)
      end
  end.
Proof.
  unfold round, bind, next_table, table_info, call, ret.
  destruct (iter_next it (ext w)) as [[[[t it']|]|err] x]; simpl; [|done..].
  destruct (cache_table_info (resource_name t) x) as [[ti|err] x']; simpl;
    by rewrite <- app_assoc.
Qed.

Lemma follows_underlying_nothing self : follows_underlying self 0 [] Pending [].
Proof.
  unfold follows_underlying. simpl. split; [constructor|]. split; [lia|].
  split; [by exists []|]. split; [|done].
  split; [done|]. intros Hin. by apply elem_of_nil in Hin.
Qed.

Lemma take_n_suspended self n it w ts e g' w' :
  take_n self n (GenSuspended it) w = (ts, e, g', w') ->
  exists evs,
    trace w' = trace w ++ evs /\ follows_underlying self n ts e evs /\
    (forall err, EvNext (Raise err) ∈ evs -> e = Failed err) /\
    (forall err, e = Failed err -> iteration_failure w' evs err).
Proof.
  revert it w ts e g' w'.
  induction n as [|n IH]; intros it w ts e g' w' H.
  { injection H as <- <- _ <-. exists []. rewrite app_nil_r. split; [done|].
    split; [apply follows_underlying_nothing|].
    split; [|done]. intros err Hin. by apply elem_of_nil in Hin. }
  cbn [take_n next] in H. rewrite round_run in H.
  destruct (iter_next it (ext w)) as [[[[t it']|]|err0] x] eqn:Hnext; cbv zeta in H.
  - destruct (cache_table_info (resource_name t) x) as [[ti|err0] x'] eqn:Hti;
      cbn [settle] in H.
    + destruct (take_n self n (GenSuspended it') _) as [[[ts0 e0] g0] w0] eqn:Hrest.
      injection H as <- <- <- <-.
      apply IH in Hrest
        as (evs & Htr & (Hnc & Hle & (extra & Htabs & Hextra) & Hend & Hpen & Hw)
                & Hraise & Hcause).
      simpl in Htr.
      exists (EvNext (Ok (Some t)) :: EvTableInfo (resource_name t) :: evs).
      split; [by rewrite Htr, <- !app_assoc|]. split; [|split].
      * unfold follows_underlying. simpl.
        split; [not_collection|]. split; [unfold underlying_nexts in *; lia|].
        split; [exists extra; by rewrite Htabs|].
        split.
        { rewrite Hend. rewrite !elem_of_cons. naive_solver. }
        split; [intros Hp; by rewrite Hpen|].
        constructor; [done|done].
      * intros err Hin. apply Hraise.
        apply elem_of_cons in Hin as [?|Hin]; [done|].
        by apply elem_of_cons in Hin as [?|Hin].
      * intros err He.
        destruct (Hcause err He)
          as [(pre & it0 & x0 & -> & Hit)|(pre & t0 & it0 & it0' & x0 & x1 & -> & Hit & Hc)].
        -- left. by exists (EvNext (Ok (Some t)) :: EvTableInfo (resource_name t) :: pre),
                          it0, x0.
        -- right.
           by exists (EvNext (Ok (Some t)) :: EvTableInfo (resource_name t) :: pre),
                     t0, it0, it0', x0, x1.
    + injection H as <- <- _ <-.
      exists [EvNext (Ok (Some t)); EvTableInfo (resource_name t)].
      split; [done|]. split; [|split].
      * unfold follows_underlying. simpl.
        split; [not_collection|]. split; [lia|].
        split; [exists [t]; split; [done|]; intros Hn; by destruct (Hn err0)|].
        split; [|done]. split; [done|].
        rewrite !elem_of_cons, elem_of_nil. naive_solver.
      * intros err. rewrite !elem_of_cons, elem_of_nil. naive_solver.
      * intros err [= <-]. right. by exists [], t, it, it', (ext w), x.
  - cbn [settle] in H. injection H as <- <- _ <-. exists [EvNext (Ok None)].
    split; [done|]. split; [|split].
    + unfold follows_underlying. simpl.
      split; [not_collection|]. split; [lia|]. split; [by exists []|].
      split; [|done]. split; [intros _; left | done].
    + intros err. rewrite !elem_of_cons, elem_of_nil. naive_solver.
    + done.
  - cbn [settle] in H. injection H as <- <- _ <-. exists [EvNext (Raise err0)].
    split; [done|]. split; [|split].
    + unfold follows_underlying. simpl.
      split; [not_collection|]. split; [lia|]. split; [by exists []|].
      split; [|done]. split; [done|].
      rewrite !elem_of_cons, elem_of_nil. naive_solver.
    + intros err. rewrite !elem_of_cons, elem_of_nil. naive_solver.
    + intros err [= <-]. left. by exists [], it, (ext w).
Qed.

Lemma take_n_created self n method kwargs w ts e g' w' :
  take_n self (S n) (GenCreated method kwargs) w = (ts, e, g', w') ->
  exists rest,
    trace w' = trace w ++ EvCollection method kwargs :: rest /\
    follows_underlying self (S n) ts e rest /\
    (forall err, EvNext (Raise err) ∈ rest -> e = Failed err) /\
    (forall err, e = Failed err -> failure_cause method kwargs w w' rest err).
Proof.
  intros H.
  destruct (collection_call method kwargs (ext w)) as [[it|err0] x] eqn:Hcall.
  - set (w1 := mkWorld (heap w) (bodies w) x (trace w ++ [EvCollection method kwargs])).
    assert (next self (GenCreated method kwargs) w = next self (GenSuspended it) w1)
      as Hn.
    { unfold next, bind, call. by rewrite Hcall. }
    assert (take_n self (S n) (GenSuspended it) w1 = (ts, e, g', w')) as H1.
    { rewrite <- H. cbn [take_n]. by rewrite Hn. }
    apply take_n_suspended in H1 as (evs & Htr & Hf & Hraise & Hcause).
    exists evs. split; [|split; [done|split; [done|]]].
    + rewrite Htr. simpl. by rewrite <- app_assoc.
    + intros err He. right. by apply Hcause.
  - cbn [take_n] in H. unfold next, bind, call in H. rewrite Hcall in H. simpl in H.
    injection H as <- <- _ <-. exists []. split; [done|]. split; [|split].
    + unfold follows_underlying. simpl.
      split; [constructor|]. split; [lia|]. split; [by exists []|].
      split; [|done]. split; [done|]. intros Hin. by apply elem_of_nil in Hin.
    + intros err Hin. by apply elem_of_nil in Hin.
    + intros err [= <-]. by left.
Qed.

Lemma created_lazy_restartable self method kwargs :
  lazy_restartable self (GenCreated method kwargs) method kwargs.
Proof.
  split; [done|]. split.
  - intros n w ts e g' w' H.
    apply take_n_created in H as (rest & Htr & Hf & Hraise & Hcause).
    exists rest. split; [by apply new_events_app|done].
  - intros n1 n2 w. cbv zeta.
    destruct (take_n self (S n1) (GenCreated method kwargs) w)
      as [[[ts1 e1] g1] w1] eqn:H1.
    apply take_n_created in H1 as (rest1 & Htr1 & (Hnc1 & _) & _).
    cbn [snd].
    destruct (take_n self (S n2) (GenCreated method kwargs) w1)
      as [[[ts2 e2] g2] w2] eqn:H2.
    apply take_n_created in H2 as (rest2 & Htr2 & (Hnc2 & _) & _).
    cbn [snd].
    exists rest1, rest2. split; [|done]. apply new_events_app.
    rewrite Htr2, Htr1. by rewrite <- app_assoc.
Qed.

Lemma bind_arguments_Ok params kwargs :
  Forall (fun param => kwargs !! param = None) params ->
  bind_arguments params kwargs = Ok tt.
Proof.
  intros H. unfold bind_arguments.
  assert (filter (fun param => is_Some (kwargs !! param)) params = []) as ->; [|done].
  induction H as [|param params Hp _ IH]; [done|].
  rewrite filter_cons_False; [done|]. rewrite Hp. by intros [? ?].
Qed.

Lemma bind_arguments_clash param params kwargs :
  is_Some (kwargs !! param) ->
  bind_arguments (param :: params) kwargs = Raise (TypeError param).
Proof. intros H. unfold bind_arguments. by rewrite filter_cons_True. Qed.

Lemma _transform_table_Ok self method kwargs :
  kwargs !! "self" = None -> kwargs !! "method" = None ->
  _transform_table self method kwargs = Ok (GenCreated method kwargs).
Proof.
  intros Hs Hm. unfold _transform_table.
  rewrite bind_arguments_Ok; [done|]. by repeat constructor.
Qed.

Lemma _transform_table_Raise self method kwargs :
  kwargs !! "self" = None -> is_Some (kwargs !! "method") ->
  _transform_table self method kwargs = Raise (TypeError "method").
Proof.
  intros Hs Hm. unfold _transform_table, bind_arguments.
  rewrite filter_cons_False, filter_cons_True; [done..|].
  rewrite Hs. by intros [? ?].
Qed.

(** C8, amended: [all()], and [filter], [limit] and [page_size] called with
    keyword arguments none of which is named 'self' or 'method', return a
    generator that calls nothing until an element is asked for; an
    enumeration calls the collection's method of the same name, once and
    with the keyword arguments as given, asks the underlying iterable for no
    more elements than it is asked for, gives the underlying tables
    wrapped, in the underlying order, ends exactly when the underlying
    iterable ends, fails exactly when the collection, the underlying
    iterable or the table-info cache raises, with their exception, and a
    second call of the method enumerates the underlying collection again.
    Called with a keyword argument named 'self' or 'method', [filter],
    [limit] and [page_size] raise [TypeError] and return no generator. *)
Theorem collection_methods_lazy_restartable
    (self : EncryptedTablesCollectionManager) (kwargs : Kwargs) :
  (exists g, tables_all self = Ok g /\ lazy_restartable self g m_all ∅) /\
  (kwargs !! "self" = None -> kwargs !! "method" = None ->
     (exists g, tables_filter self kwargs = Ok g /\
                lazy_restartable self g m_filter kwargs) /\
     (exists g, tables_limit self kwargs = Ok g /\
                lazy_restartable self g m_limit kwargs) /\
     (exists g, tables_page_size self kwargs = Ok g /\
                lazy_restartable self g m_page_size kwargs)) /\
  (is_Some (kwargs !! "self") \/ is_Some (kwargs !! "method") ->
     exists param,
       tables_filter self kwargs = Raise (TypeError param) /\
       tables_limit self kwargs = Raise (TypeError param) /\
       tables_page_size self kwargs = Raise (TypeError param)).
Proof.
  split; [|split].
  - exists (GenCreated m_all ∅). split; [done|]. apply created_lazy_restartable.
  - intros Hs Hm.
    unfold tables_filter, tables_limit, tables_page_size.
    rewrite bind_arguments_Ok, !_transform_table_Ok by (done || by repeat constructor).
    repeat split; eexists; (split; [reflexivity|]); apply created_lazy_restartable.
  - intros Hclash. unfold tables_filter, tables_limit, tables_page_size.
    destruct (kwargs !! "self") as [v|] eqn:Hs.
    + exists "self". rewrite bind_arguments_clash; [done|]. by rewrite Hs.
    + destruct Hclash as [[? ?]|Hm]; [done|]. exists "method".
      rewrite bind_arguments_Ok, !_transform_table_Raise
        by (done || by repeat constructor).
      done.
Qed.

(** ** Attribute access *)

Lemma getattribute_delegates names hook name :
  name ∉ names ++ object_names ->
  getattribute names hook name
  = match hook name with Ok v => Ok (Wrapped v) | Raise e => Raise e end.
Proof. intros H. unfold getattribute. by rewrite bool_decide_eq_false_2. Qed.

(** C9: an attribute that [EncryptedResource] (or
    [EncryptedTablesCollectionManager]) does not define is looked up on the
    wrapped resource (or collection): the access gives what that lookup
    gives, and raises the [AttributeError] (or whatever else) that lookup
    raises; it never gives anything else. *)
Theorem undefined_attributes_are_delegated (name : string) :
  (name ∉ EncryptedResource_names ++ object_names ->
     (forall v, resource_getattr name = Ok v ->
        EncryptedResource_getattribute name = Ok (Wrapped v)) /\
     (forall e, resource_getattr name = Raise e ->
        EncryptedResource_getattribute name = Raise e) /\
     (forall a, EncryptedResource_getattribute name = Ok a ->
        exists v, a = Wrapped v /\ resource_getattr name = Ok v)) /\
  (name ∉ EncryptedTablesCollectionManager_names ++ object_names ->
     (forall v, collection_getattr name = Ok v ->
        EncryptedTablesCollectionManager_getattribute name = Ok (Wrapped v)) /\
     (forall e, collection_getattr name = Raise e ->
        EncryptedTablesCollectionManager_getattribute name = Raise e) /\
     (forall a, EncryptedTablesCollectionManager_getattribute name = Ok a ->
        exists v, a = Wrapped v /\ collection_getattr name = Ok v)).
Proof.
  split; intros Hn.
  - unfold EncryptedResource_getattribute.
    rewrite getattribute_delegates by done. unfold EncryptedResource__getattr__.
    destruct (resource_getattr name) as [v|e]; repeat split; try congruence.
    intros a [= <-]. by exists v.
  - unfold EncryptedTablesCollectionManager_getattribute.
    rewrite getattribute_delegates by done.
    unfold EncryptedTablesCollectionManager__getattr__.
    destruct (collection_getattr name) as [v|e]; repeat split; try congruence.
    intros a [= <-]. by exists v.
Qed.

(** * Further properties *)

(** ** Objects of the store *)

Lemma stable_get_request_items (R : relation World) `{!Reflexive R} kwargs :
  stable R (get_request_items kwargs).
Proof.
  unfold get_request_items. destruct (kwargs !! "RequestItems") as [[]|];
    first [apply stable_ret, _ | apply stable_raise, _].
Qed.

Lemma stable_write_request_items (R : relation World) `{!Reflexive R} kwargs :
  stable R (write_request_items kwargs).
Proof.
  unfold write_request_items. destruct (kwargs !! "RequestItems") as [[]|];
    first [apply stable_ret, _ | apply stable_raise, _].
Qed.

Lemma stable_get_responses (R : relation World) `{!Reflexive R} response :
  stable R (get_responses response).
Proof.
  unfold get_responses. destruct (response !! "Responses") as [[]|];
    first [apply stable_ret, _ | apply stable_raise, _].
Qed.

Lemma keeps_objects_call {A} ev (f : Ext -> Res A * Ext) :
  stable keeps_objects (call ev f).
Proof. eapply stable_weaken; [apply same_heap_keeps_objects | apply same_heap_call]. Qed.

Lemma keeps_objects_call_pure {A} ev (f : Heap -> Res A) :
  stable keeps_objects (call_pure ev f).
Proof.
  eapply stable_weaken; [|apply reads_only_call_pure].
  intros w w' H. by apply same_heap_keeps_objects, reads_only_same_heap.
Qed.

Lemma batch_get_item_keeps_objects self kwargs :
  stable keeps_objects (batch_get_item self kwargs).
Proof.
  unfold batch_get_item. simpl.
  apply stable_bind; [apply _ | apply stable_get_request_items, _ |].
  intros r. apply stable_bind; [apply _ | |].
  { apply stable_for_each; [apply _|]. intros entry _. apply keeps_objects_call_pure. }
  intros _. apply stable_bind; [apply _ | apply keeps_objects_call |].
  intros resp. apply stable_bind; [apply _ | apply stable_get_responses, _ |].
  intros raw. apply stable_bind; [apply _ | | intros; apply stable_ret, _].
  apply stable_for_each; [apply _|]. intros entry _. unfold decrypt_table.
  apply stable_bind; [apply _ | apply crypto_config_for_keeps_objects |].
  intros cfg. apply stable_bind; [apply _ | | intros; apply stable_ret, _].
  apply stable_for_each; [apply _|]. intros item _. apply keeps_objects_call_pure.
Qed.

Lemma batch_write_item_keeps_objects self kwargs :
  stable keeps_objects (batch_write_item self kwargs).
Proof.
  unfold batch_write_item. simpl.
  apply stable_bind; [apply _ | apply stable_write_request_items, _ |].
  intros tables. apply stable_bind; [apply _ | |].
  - apply stable_for_each; [apply _|]. intros entry _.
    apply encrypt_table_stable; [apply _ | apply crypto_config_for_keeps_objects |].
    intros cfg e. eapply stable_weaken; [|apply encrypt_entry_reads_only].
    intros w w' H. by apply same_heap_keeps_objects, reads_only_same_heap.
  - intros _ w. rewrite send_batch_write_run. by apply same_heap_keeps_objects.
Qed.

(** X1: a [batch_get_item] or [batch_write_item] call, whatever it is given
    and whether it returns or raises, changes no [AttributeActions] object
    that existed before it: in particular not the resource's default, and
    not the one of a [crypto_config] given with the call. *)
Theorem batch_methods_keep_objects
    (self : EncryptedResource) (kwargs : Kwargs) (w : World) (l : ref) :
  is_Some (heap w !! l) ->
  heap (batch_get_item self kwargs w).2 !! l = heap w !! l /\
  heap (batch_write_item self kwargs w).2 !! l = heap w !! l.
Proof.
  intros Hl. split.
  - by apply batch_get_item_keeps_objects.
  - by apply batch_write_item_keeps_objects.
Qed.

(** ** What the boto3 resource is called with *)

Lemma batch_get_item_forwards self kwargs :
  stable (adds (forwards kwargs)) (batch_get_item self kwargs).
Proof.
  unfold batch_get_item. simpl.
  apply stable_bind; [apply _ | apply stable_get_request_items, _ |].
  intros r. apply stable_bind; [apply _ | |].
  { apply stable_for_each; [apply _|]. intros entry _. by apply adds_call_pure. }
  intros _. apply stable_bind; [apply _ | by apply adds_call |].
  intros resp. by apply after_get_adds.
Qed.

Lemma batch_write_item_forwards self kwargs :
  stable (adds (forwards kwargs)) (batch_write_item self kwargs).
Proof.
  unfold batch_write_item. simpl.
  apply stable_bind; [apply _ | apply stable_write_request_items, _ |].
  intros tables. apply stable_bind; [apply _ | |].
  { apply stable_for_each; [apply _|]. intros entry _. by apply encrypt_table_adds. }
  intros _. by apply adds_send_batch_write.
Qed.

(** X2: in every call, with or without a [crypto_config], the boto3
    [batch_get_item] is called with exactly the keyword arguments given less
    [crypto_config], and the boto3 [batch_write_item] with keyword arguments
    that differ from these under 'RequestItems' only; [crypto_config] is never
    passed on. *)
Theorem crypto_config_never_forwarded
    (self : EncryptedResource) (kwargs : Kwargs) (w : World) :
  (forall kw, EvBatchGet kw ∈ new_events w (batch_get_item self kwargs w).2 ->
     kw = delete "crypto_config" kwargs /\ kw !! "crypto_config" = None) /\
  (forall kw, EvBatchWrite kw ∈ new_events w (batch_write_item self kwargs w).2 ->
     kw !! "crypto_config" = None /\
     forall key, key ≠ "RequestItems" -> key ≠ "crypto_config" ->
                 kw !! key = kwargs !! key).
Proof.
  split; intros kw Hin.
  - destruct (adds_new_events _ _ _ (batch_get_item_forwards self kwargs w)) as [_ HF].
    rewrite Forall_forall in HF. specialize (HF _ Hin). simpl in HF. subst kw.
    split; [done|]. apply lookup_delete_eq.
  - destruct (adds_new_events _ _ _ (batch_write_item_forwards self kwargs w)) as [_ HF].
    rewrite Forall_forall in HF. specialize (HF _ Hin). simpl in HF. subst kw. split.
    + apply lookup_delete_eq.
    + intros key H1 H2. by apply lookup_delete_ne.
Qed.

(** X3: [crypto_config=None] is the same as no [crypto_config]: both batch
    methods behave exactly as on the keyword arguments without it. *)
Theorem crypto_config_None_is_absent
    (self : EncryptedResource) (kwargs : Kwargs) (w : World) :
  batch_get_item self (<["crypto_config" := VNone]> kwargs) w
  = batch_get_item self (delete "crypto_config" kwargs) w /\
  batch_write_item self (<["crypto_config" := VNone]> kwargs) w
  = batch_write_item self (delete "crypto_config" kwargs) w.
Proof.
  unfold batch_get_item, batch_write_item, pop_crypto_config. simpl.
  by rewrite lookup_insert_eq, lookup_delete_eq, delete_insert_eq, delete_delete_eq.
Qed.

(** X4: without 'RequestItems' in the keyword arguments, both batch methods
    raise [KeyError('RequestItems')] before anything is validated, looked up,
    transformed or sent, crypto_config or not. *)
Theorem missing_RequestItems_raises_KeyError
    (self : EncryptedResource) (kwargs : Kwargs) (w : World) :
  kwargs !! "RequestItems" = None ->
  batch_get_item self kwargs w = (Raise (KeyError "RequestItems"), w) /\
  batch_write_item self kwargs w = (Raise (KeyError "RequestItems"), w).
Proof.
  intros Hr. unfold batch_get_item, batch_write_item. simpl.
  unfold bind at 1 3, get_request_items, write_request_items.
  by rewrite !lookup_delete_ne, !Hr.
Qed.

(** ** Cache lookups of the batch methods *)

Lemma lookups_app evs1 evs2 : lookups (evs1 ++ evs2) = lookups evs1 ++ lookups evs2.
Proof. apply omap_app. Qed.

Lemma lookups_none evs : Forall (fun ev => ¬ is_lookup ev) evs -> lookups evs = [].
Proof.
  induction 1 as [|ev evs Hev _ IH]; [done|].
  destruct ev; try exact IH. by destruct Hev.
Qed.

Lemma _crypto_config_trace self name w :
  trace (_crypto_config self name w).2 = trace w ++ [EvTableInfo name].
Proof.
  rewrite _crypto_config_run.
  destruct (cache_table_info name (ext w)) as [[ti|e] x]; simpl; [|done].
  by destruct (heap w !! _attribute_actions self).
Qed.

(** A loop round that resolves the configuration of [name] and then makes no
    cache lookup asks the cache for [name] and nothing else. *)
Lemma resolved_round_lookups {B} self name (k : PyVal -> M B) w :
  (forall cfg, stable (adds (fun ev => ¬ is_lookup ev)) (k cfg)) ->
  let w' := ((let! cfg := crypto_config_for self VNone name in k cfg) w).2 in
  adds (fun _ => True) w w' /\ lookups (new_events w w') = [name].
Proof.
  intros Hk. unfold crypto_config_for. simpl.
  pose proof (_crypto_config_trace self name w) as Htr.
  unfold bind.
  destruct (_crypto_config self name w) as [[c|e] w1]; simpl in *.
  - destruct (Hk (VCryptoConfig c) w1) as (rest & Hrest & Hno).
    rewrite Htr, <- app_assoc in Hrest. split.
    + eexists. split; [exact Hrest|]. apply Forall_forall. by intros.
    + rewrite (new_events_app _ _ _ Hrest), lookups_app, (lookups_none rest) by done.
      done.
  - split.
    + eexists. split; [exact Htr|]. apply Forall_forall. by intros.
    + by rewrite (new_events_app _ _ _ Htr).
Qed.

Lemma for_each_lookups {A B} (f : A -> M B) (name : A -> string) xs w :
  (forall x w, adds (fun _ => True) w (f x w).2 /\
               lookups (new_events w (f x w).2) = [name x]) ->
  adds (fun _ => True) w (for_each f xs w).2 /\
  (exists k, lookups (new_events w (for_each f xs w).2) = take k (map name xs)) /\
  ((exists ys, (for_each f xs w).1 = Ok ys) ->
     lookups (new_events w (for_each f xs w).2) = map name xs).
Proof.
  intros Hf. revert w. induction xs as [|x xs IH]; intros w.
  - simpl. rewrite new_events_same. split; [reflexivity|]. split; [by exists 0|done].
  - destruct (Hf x w) as [Hadds Hx]. cbn [for_each]. unfold bind.
    destruct (f x w) as [[y|e] w1]; simpl in Hadds, Hx.
    + destruct (IH w1) as (Hadds' & [k Hk] & Hok).
      destruct (for_each f xs w1) as [[ys|e] w2]; simpl in *.
      * split; [by etransitivity|].
        rewrite (new_events_trans _ _ _ _ _ Hadds Hadds'), lookups_app, Hx.
        split; [exists (S k); by rewrite Hk|]. intros _. rewrite Hok; [done|by exists ys].
      * split; [by etransitivity|].
        rewrite (new_events_trans _ _ _ _ _ Hadds Hadds'), lookups_app, Hx.
        split; [exists (S k); by rewrite Hk|]. by intros [ys ?].
    + simpl. split; [done|]. split; [exists 1; by rewrite Hx|]. by intros [ys ?].
Qed.

Lemma encrypt_table_lookups self entry w :
  adds (fun _ => True) w (encrypt_table self VNone entry w).2 /\
  lookups (new_events w (encrypt_table self VNone entry w).2) = [entry.1].
Proof.
  apply (resolved_round_lookups self entry.1
           (fun cfg => let! _ := for_each (for_each (encrypt_entry cfg)) entry.2 in
                       ret tt)).
  intros cfg. apply stable_bind; [apply _ | | intros; apply stable_ret, _].
  apply encrypt_requests_stable; [apply _|]. intros e.
  apply encrypt_entry_adds. by intros item [].
Qed.

Lemma decrypt_table_lookups self entry w :
  adds (fun _ => True) w (decrypt_table self VNone entry w).2 /\
  lookups (new_events w (decrypt_table self VNone entry w).2) = [entry.1].
Proof.
  apply (resolved_round_lookups self entry.1
           (fun cfg => let! items := for_each (decrypt cfg) entry.2 in
                       ret (entry.1, items))).
  intros cfg. apply stable_bind; [apply _ | | intros; apply stable_ret, _].
  apply stable_for_each; [apply _|]. intros item _.
  apply adds_call_pure. by intros [].
Qed.

(** X5: without a [crypto_config], [batch_write_item] asks the table-info
    cache once for each table of 'RequestItems', in the order of the
    request, whether the table has PUT requests, only deletes, or no request
    at all, and stops at the first table for which something raises; when the
    boto3 [batch_write_item] is reached, every table has been looked up. *)
Theorem batch_write_item_looks_up_every_table
    (self : EncryptedResource) (kwargs : Kwargs) (w : World)
    (tables : list (string * list WriteRequest)) :
  kwargs !! "RequestItems" = Some (VWriteItems tables) ->
  default VNone (kwargs !! "crypto_config") = VNone ->
  let evs := new_events w (batch_write_item self kwargs w).2 in
  (exists k, lookups evs = take k (map fst tables)) /\
  (forall kw, EvBatchWrite kw ∈ evs -> lookups evs = map fst tables).
Proof.
  intros Hr Hc. simpl.
  assert (forall w1 kw,
            lookups (new_events w (send_batch_write kw w1).2)
            = lookups (new_events w w1) /\ True) as Hcall.
  { intros w1 kw. split; [|done]. rewrite send_batch_write_run. unfold new_events.
    simpl.
    destruct (decide (length (trace w) <= length (trace w1))) as [Hle|Hgt].
    - rewrite drop_app_le by done. by rewrite lookups_app, app_nil_r.
    - rewrite !drop_ge; [done| lia |]. rewrite length_app. simpl. lia. }
  destruct (for_each_lookups (encrypt_table self VNone) fst tables w
              (encrypt_table_lookups self)) as (Hadds & [k Hk] & Hok).
  rewrite (batch_write_item_run _ _ _ _ Hr), Hc.
  destruct (for_each (encrypt_table self VNone) tables w) as [[tables'|e] w1] eqn:Hloop;
    simpl in *.
  - rewrite (proj1 (Hcall w1 _)). split; [by exists k|]. intros _ _.
    apply Hok. by exists tables'.
  - split; [by exists k|]. intros kw Hin. exfalso.
    pose proof (stable_for_each (adds (fun ev => ¬ is_batch_write ev))
                  (encrypt_table self VNone) tables
                  ltac:(intros; apply encrypt_table_adds;
                        [by intros _ [] | by intros ? ? _ []])
                  w) as Hno.
    rewrite Hloop in Hno. apply adds_new_events in Hno as [_ Hno].
    rewrite Forall_forall in Hno. by destruct (Hno _ Hin).
Qed.

Lemma validations_no_lookup (r : list (string * GetSpec)) kw :
  lookups (map (fun entry => EvValidate entry.2) r ++ [EvBatchGet kw]) = [].
Proof.
  induction r as [|entry r IH]; [done | exact IH].
Qed.

(** X6: without a [crypto_config], a [batch_get_item] call that returns has
    asked the table-info cache once for each table of the response's
    'Responses' (not of the request), in the order of the response, and for
    nothing else. *)
Theorem batch_get_item_looks_up_response_tables
    (self : EncryptedResource) (kwargs : Kwargs) (w : World)
    (response' : Kwargs) (w' : World) :
  batch_get_item self kwargs w = (Ok response', w') ->
  default VNone (kwargs !! "crypto_config") = VNone ->
  exists response x raw,
    resource_batch_get_item (delete "crypto_config" kwargs) (ext w) = (Ok response, x) /\
    response !! "Responses" = Some (VResponses raw) /\
    lookups (new_events w w') = map fst raw.
Proof.
  intros H Hc.
  destruct (batch_get_item_inv_Ok _ _ _ _ _ H)
    as (r & resp & x & raw & dec & w2 & Hr & Hvalid & Hget & Hraw & _).
  exists resp, x, raw. split; [done|]. split; [done|].
  rewrite (batch_get_item_valid_run _ _ _ _ Hr Hvalid), Hc in H. simpl in H.
  rewrite Hget in H. unfold after_get, bind at 1, get_responses in H.
  rewrite Hraw in H. simpl in H.
  set (w1 := mkWorld _ _ _ _) in H.
  destruct (for_each_lookups (decrypt_table self VNone) fst raw w1
              (decrypt_table_lookups self)) as (Hadds & _ & Hok).
  unfold bind at 1 in H.
  destruct (for_each (decrypt_table self VNone) raw w1) as [[dec'|e] w3]; [|done].
  unfold ret in H. injection H as _ <-. simpl in *.
  assert (adds (fun _ => True) w w1) as H1.
  { eexists. split; [reflexivity|]. apply Forall_forall. by intros. }
  rewrite (new_events_trans _ _ _ _ _ H1 Hadds), lookups_app.
  rewrite (new_events_app w w1 _ eq_refl), validations_no_lookup. simpl.
  apply Hok. by exists dec'.
Qed.

(** ** Batches without PUT requests *)

Lemma encrypt_table_no_put_stable (R : relation World) self rcc entry :
  Forall (Forall (fun e : string * ref => e.1 ≠ "PutRequest")) entry.2 ->
  stable R (crypto_config_for self rcc entry.1) ->
  stable R (encrypt_table self rcc entry).
Proof.
  intros Hno Hc w. rewrite encrypt_table_no_put by done. specialize (Hc w).
  by destruct (crypto_config_for self rcc entry.1 w) as [[cfg|e] w1].
Qed.

Lemma transform_no_put_stable (R : relation World) `{!PreOrder R} self rcc tables :
  no_put tables ->
  (forall name, stable R (crypto_config_for self rcc name)) ->
  stable R (for_each (encrypt_table self rcc) tables).
Proof.
  intros Hno Hc. apply stable_for_each; [apply _|]. intros entry Hentry.
  apply encrypt_table_no_put_stable; [|apply Hc].
  unfold no_put in Hno. rewrite Forall_forall in Hno. by apply Hno.
Qed.

Lemma transform_no_put_given self v tables w :
  no_put tables -> v ≠ VNone ->
  for_each (encrypt_table self v) tables w = (Ok (map (fun _ => tt) tables), w).
Proof.
  intros Hno Hv. induction Hno as [|entry tables Hentry _ IH]; [done|].
  cbn [for_each]. unfold bind at 1. rewrite encrypt_table_no_put by done.
  rewrite crypto_config_for_override by done. unfold ret at 1.
  unfold bind at 1. by rewrite IH.
Qed.

(** X7: a batch write in which no request is a 'PutRequest' (deletes only)
    makes no [encrypt_python_item] call, assigns into no body and, if it
    reaches the boto3 [batch_write_item], calls it with exactly the keyword
    arguments given less [crypto_config]; given a [crypto_config], the call
    is nothing but that boto3 call. *)
Theorem delete_only_batch_is_forwarded_as_given
    (self : EncryptedResource) (kwargs : Kwargs) (w : World)
    (tables : list (string * list WriteRequest)) :
  kwargs !! "RequestItems" = Some (VWriteItems tables) ->
  no_put tables ->
  let kw0 := delete "crypto_config" kwargs in
  let evs := new_events w (batch_write_item self kwargs w).2 in
  Forall (fun ev => ¬ is_encrypt ev) evs /\
  (forall kw, EvBatchWrite kw ∈ evs -> kw = kw0) /\
  bodies (batch_write_item self kwargs w).2 = bodies w /\
  (forall v, kwargs !! "crypto_config" = Some v -> v ≠ VNone ->
     batch_write_item self kwargs w
     = call (EvBatchWrite kw0) (resource_batch_write_item kw0 (bodies w)) w).
Proof.
  intros Hr Hno. simpl.
  set (rcc := default VNone (kwargs !! "crypto_config")).
  pose proof (transform_no_put_stable (adds (fun ev => ¬ is_encrypt ev)) self rcc
                tables Hno
                ltac:(intros; apply crypto_config_for_adds; by intros []) w) as Hadds.
  pose proof (transform_no_put_stable same_bodies self rcc tables Hno
                (crypto_config_for_same_bodies self rcc) w) as Hsame.
  split; [|split; [|split]].
  - rewrite (batch_write_item_run _ _ _ _ Hr). fold rcc.
    destruct (for_each _ tables w) as [[us|e] w1]; simpl in *.
    + assert (adds (fun ev => ¬ is_encrypt ev) w
                (send_batch_write (delete "crypto_config" kwargs) w1).2) as H.
      { etransitivity; [exact Hadds|]. apply adds_send_batch_write. by intros []. }
      by apply adds_new_events in H as [_ H].
    + by apply adds_new_events in Hadds as [_ H].
  - intros kw Hin. by apply batch_write_item_events in Hin as (? & ? & ? & _ & _ & -> & _).
  - rewrite (batch_write_item_run _ _ _ _ Hr). fold rcc.
    destruct (for_each _ tables w) as [[us|e] w1]; simpl in *; [|done].
    by rewrite send_batch_write_run.
  - intros v Hc Hv. rewrite (batch_write_item_run _ _ _ _ Hr), Hc. simpl.
    by rewrite transform_no_put_given.
Qed.

(** ** Malformed requests and responses, failures of the boto3 resource *)

Lemma for_each_inv_Raise {A B} (f : A -> M B) xs w e w' :
  for_each f xs w = (Raise e, w') ->
  exists x w1, x ∈ xs /\ f x w1 = (Raise e, w').
Proof.
  revert w. induction xs as [|x xs IH]; intros w H; simpl in H; [done|].
  unfold bind at 1 in H. destruct (f x w) as [[y|e0] w1] eqn:Hx.
  - unfold bind at 1 in H.
    destruct (for_each f xs w1) as [[ys|e1] w2] eqn:Hxs; [done|].
    injection H as -> ->. destruct (IH _ Hxs) as (x' & w0 & Hin & Hx').
    exists x', w0. split; [by right|done].
  - injection H as -> ->. exists x, w. split; [left|done].
Qed.

(** X8: a batch write holding a 'PutRequest' without 'Item' raises and never
    reaches the boto3 [batch_write_item]; when the call is given a
    [crypto_config] and [encrypt_python_item] does not raise, what it raises
    is [KeyError('Item')]. *)
Theorem put_request_without_Item_raises
    (self : EncryptedResource) (kwargs : Kwargs) (w : World)
    (tables : list (string * list WriteRequest))
    (name : string) (reqs : list WriteRequest) (req : WriteRequest) (b : ref) :
  kwargs !! "RequestItems" = Some (VWriteItems tables) ->
  (name, reqs) ∈ tables -> req ∈ reqs -> ("PutRequest", b) ∈ req ->
  body_of (bodies w) b !! "Item" = None ->
  let run := batch_write_item self kwargs w in
  (exists e, run.1 = Raise e) /\
  (forall kw, EvBatchWrite kw ∉ new_events w run.2) /\
  (forall v, kwargs !! "crypto_config" = Some v -> v ≠ VNone ->
     (forall item cfg h, exists encrypted,
         encrypt_python_item item cfg h = Ok encrypted) ->
     run.1 = Raise (KeyError "Item")).
Proof.
  intros Hr Ht Hreq He Hbody. simpl.
  assert (forall us w1,
            for_each (encrypt_table self (default VNone (kwargs !! "crypto_config")))
                     tables w ≠ (Ok us, w1)) as Hnot.
  { intros us w1 Hloop.
    destruct (transform_visit _ _ keeps_itemless keeps_itemless _ _ _ _ _ _ _ _
                (crypto_config_for_keeps_itemless self _)
                encrypt_entry_keeps_itemless encrypt_entry_keeps_itemless
                Hloop Ht Hreq He)
      as (w0 & cfg & wc & wv & w2 & _ & _ & Hkeep & _ & Hvisit & _).
    apply encrypt_entry_put_Ok in Hvisit as (item & enc & Hi & _).
    rewrite (Hkeep b Hbody) in Hi. congruence. }
  split; [|split].
  - rewrite (batch_write_item_run _ _ _ _ Hr).
    destruct (for_each _ tables w) as [[us|e] w1] eqn:Hloop; [|by exists e].
    by destruct (Hnot us w1).
  - intros kw Hin.
    apply batch_write_item_events in Hin as (tables0 & us & w1 & Hr0 & Hloop & _).
    rewrite Hr in Hr0. injection Hr0 as <-. by destruct (Hnot us w1).
  - intros v Hc Hv Htotal. rewrite (batch_write_item_run _ _ _ _ Hr).
    rewrite Hc in Hnot |- *. simpl in *.
    destruct (for_each (encrypt_table self v) tables w) as [[us|e] w1] eqn:Hloop;
      [by destruct (Hnot us w1)|].
    simpl. f_equal.
    apply for_each_inv_Raise in Hloop as (t & w0 & _ & Hrun).
    unfold encrypt_table in Hrun. rewrite crypto_config_for_override in Hrun by done.
    unfold bind at 1, ret at 1 in Hrun. unfold bind at 1 in Hrun.
    destruct (for_each (for_each (encrypt_entry v)) t.2 w0) as [[rs|e0] w2] eqn:Hreqs;
      [done|]. injection Hrun as -> ->.
    apply for_each_inv_Raise in Hreqs as (r0 & w3 & _ & Hr0).
    apply for_each_inv_Raise in Hr0 as (e0 & w4 & _ & He0).
    apply encrypt_entry_Raise in He0 as [_ [[_ ->]|(item & _ & Hfail)]]; [done|].
    destruct (Htotal item v (heap w4)) as [enc Henc]. congruence.
Qed.

(** X9: when the boto3 [batch_get_item] returns a response without
    'Responses', [batch_get_item] raises [KeyError('Responses')], after the
    request has been validated and sent, and without any cache lookup or
    decryption. *)
Theorem response_without_Responses_raises_KeyError
    (self : EncryptedResource) (kwargs : Kwargs) (w : World)
    (r : list (string * GetSpec)) (response : Kwargs) (x : Ext) :
  kwargs !! "RequestItems" = Some (VGetItems r) ->
  Forall (fun entry => validate_get_arguments entry.2 = Ok tt) r ->
  resource_batch_get_item (delete "crypto_config" kwargs) (ext w) = (Ok response, x) ->
  response !! "Responses" = None ->
  batch_get_item self kwargs w
  = (Raise (KeyError "Responses"),
     mkWorld (heap w) (bodies w) x
       (trace w ++ map (fun entry => EvValidate entry.2) r
                ++ [EvBatchGet (delete "crypto_config" kwargs)])).
Proof.
  intros Hr Hvalid Hget Hnone.
  rewrite (batch_get_item_valid_run _ _ _ _ Hr Hvalid). simpl. rewrite Hget.
  unfold after_get, bind, get_responses. by rewrite Hnone.
Qed.

(** X10: an exception of the boto3 resource is raised unchanged: by
    [batch_get_item] when the boto3 [batch_get_item] raises (nothing is then
    looked up or decrypted), and by [batch_write_item] when the boto3
    [batch_write_item] raises; and what the boto3 [batch_write_item] returns
    is what [batch_write_item] returns. *)
Theorem boto3_outcome_is_passed_on
    (self : EncryptedResource) (kwargs : Kwargs) (w : World) :
  (forall r e x,
     kwargs !! "RequestItems" = Some (VGetItems r) ->
     Forall (fun entry => validate_get_arguments entry.2 = Ok tt) r ->
     resource_batch_get_item (delete "crypto_config" kwargs) (ext w) = (Raise e, x) ->
     (batch_get_item self kwargs w).1 = Raise e /\
     new_events w (batch_get_item self kwargs w).2
     = map (fun entry => EvValidate entry.2) r
       ++ [EvBatchGet (delete "crypto_config" kwargs)]) /\
  (forall kw, EvBatchWrite kw ∈ new_events w (batch_write_item self kwargs w).2 ->
     let st := bodies (batch_write_item self kwargs w).2 in
     exists x0,
       (batch_write_item self kwargs w).1 = (resource_batch_write_item kw st x0).1 /\
       ext (batch_write_item self kwargs w).2 = (resource_batch_write_item kw st x0).2).
Proof.
  split.
  - intros r e x Hr Hvalid Hget.
    rewrite (batch_get_item_valid_run _ _ _ _ Hr Hvalid). simpl. rewrite Hget. simpl.
    split; [done|]. by apply new_events_app.
  - intros kw Hin.
    apply batch_write_item_events in Hin
      as (tables & us & w1 & Hr & Hloop & -> & -> & _).
    rewrite send_batch_write_run. simpl. by exists (ext w1).
Qed.

(** ** Calls that return, with or without a configuration *)



(** ** Generators of the collection manager, once more *)

Lemma next_ends self g w step g' w' :
  next self g w = (step, g', w') ->
  (forall t, step ≠ Yield t) -> g' = GenFinished.
Proof.
  assert (forall r, settle r = (step, g', w') ->
                    (forall t, step ≠ Yield t) -> g' = GenFinished) as Hsettle.
  { intros [[[[t it]|]|e] w1]; simpl; intros [= <- <- <-] Hn; [|done..].
    by destruct (Hn t). }
  destruct g as [method kwargs|it|]; simpl; [by apply Hsettle..|].
  by intros [= <- <- <-].
Qed.

Lemma take_n_finished self n w :
  take_n self (S n) GenFinished w = ([], Exhausted, GenFinished, w).
Proof. done. Qed.

(** X13: an enumeration that has ended, by [StopIteration] or by an
    exception (of the collection, of the underlying iterable or of the
    table-info cache), leaves the generator finished: asking it again gives
    nothing and calls nothing, so the tables after a failure cannot be had
    from it. *)
Theorem ended_enumeration_cannot_be_resumed
    (self : EncryptedTablesCollectionManager) (n : nat) (g : Generator) (w : World)
    (ts : list EncryptedTable) (e : Ending) (g' : Generator) (w' : World) :
  take_n self n g w = (ts, e, g', w') ->
  e ≠ Pending ->
  g' = GenFinished /\
  forall m, take_n self (S m) g' w' = ([], Exhausted, g', w').
Proof.
  intros H He.
  assert (g' = GenFinished) as ->; [|split; [done|intros m; apply take_n_finished]].
  revert g w ts w' H. induction n as [|n IH]; intros g w ts w' H; simpl in H.
  - injection H as _ <- _ _. done.
  - destruct (next self g w) as [[step g1] w1] eqn:Hnext.
    destruct step as [t| |err].
    + destruct (take_n self n g1 w1) as [[[ts0 e0] g0] w0] eqn:Hrest.
      injection H as _ <- <- _. by eapply IH.
    + injection H as _ _ <- _. by eapply next_ends.
    + injection H as _ _ <- _. by eapply next_ends.
Qed.

Lemma round_schema self it w t it' w' :
  round self it w = (Ok (Some (t, it')), w') -> schema_of_own_table t.
Proof.
  unfold round, bind, next_table, table_info, call, ret. simpl.
  destruct (iter_next it (ext w)) as [[[[table it0]|]|e] x]; simpl; [|done..].
  destruct (cache_table_info (resource_name table) x) as [[ti|e] x'] eqn:Hti;
    simpl; [|done].
  intros [= <- _ _]. split; [done|]. simpl. by exists x, x'.
Qed.

Lemma next_schema self g w t g' w' :
  next self g w = (Yield t, g', w') -> schema_of_own_table t.
Proof.
  assert (forall r, settle r = (Yield t, g', w') ->
                    exists it, r = (Ok (Some (t, it)), w')) as Hsettle.
  { intros [[[[t0 it]|]|e] w1]; simpl; intros [= <- <- <-]. by exists it. }
  destruct g as [method kwargs|it|]; simpl; [| |done].
  - intros H. apply Hsettle in H as [it H]. unfold bind at 1 in H.
    destruct (call _ _ w) as [[it0|e] w1]; [|done]. by eapply round_schema.
  - intros H. apply Hsettle in H as [it' H]. by eapply round_schema.
Qed.

(** X14: every table given by an enumeration of the collection manager
    carries the schema that the table-info cache returned for the name of
    the table it wraps, and no [auto_refresh_table_indexes]: the resource's
    setting is passed to the tables made by [Table], which always carry it
    or its override, but not to those of the collection. *)
Theorem collection_tables_carry_their_schema
    (self : EncryptedTablesCollectionManager) (n : nat) (g : Generator) (w : World) :
  Forall schema_of_own_table (take_n self n g w).1.1.1 /\
  forall (resource : EncryptedResource) name kwargs w0 t,
    (Table resource name kwargs w0).1 = Ok t ->
    et_auto_refresh_table_indexes t
    = Some (kwargs_get kwargs "auto_refresh_table_indexes"
                       (VBool (_auto_refresh_table_indexes resource))).
Proof.
  split.
  - revert g w. induction n as [|n IH]; intros g w; simpl; [constructor|].
    destruct (next self g w) as [[step g1] w1] eqn:Hnext.
    destruct step as [t| |err]; simpl; [|constructor..].
    specialize (IH g1 w1).
    destruct (take_n self n g1 w1) as [[[ts0 e0] g0] w0]. simpl in *.
    constructor; [by eapply next_schema|done].
  - intros resource name kwargs w0 t.
    unfold Table, bind, emit, table_info, call, ret. simpl.
    destruct (cache_table_info name (ext w0)) as [[ti|e] x]; simpl; [|done].
    by intros [= <-].
Qed.

(** ** Configurations resolved one after the other *)

Lemma resolve_each_default self names w :
  heap (resolve_each self names w) !! _attribute_actions self
  = heap w !! _attribute_actions self.
Proof.
  revert w. induction names as [|n names IH]; intros w; simpl; [done|].
  by rewrite IH, _crypto_config_default.
Qed.

(** X15: the configuration resolved for a table does not depend on the
    configurations resolved before it, for this or for other tables: it has
    the resource's materials provider, the encryption context of the table's
    schema, and the resource's default attribute actions with the index keys
    of this table only set. *)
Theorem resolution_does_not_depend_on_earlier_ones
    (self : EncryptedResource) (names : list string) (name : string) (w : World)
    (dflt : AttributeActions) (ti : TableInfo) (x : Ext) :
  heap w !! _attribute_actions self = Some dflt ->
  cache_table_info name (ext (resolve_each self names w)) = (Ok ti, x) ->
  exists cfg w',
    _crypto_config self name (resolve_each self names w) = (Ok cfg, w') /\
    heap w' !! cc_attribute_actions cfg
    = Some (set_index_keys_value (protected_index_keys ti) dflt) /\
    cc_materials_provider cfg = _materials_provider self /\
    ec_values (cc_encryption_context cfg) = encryption_context_values ti.
Proof.
  intros Hd Hti.
  rewrite _crypto_config_run, Hti, resolve_each_default, Hd. simpl.
  eexists _, _. split; [reflexivity|]. simpl. by rewrite lookup_insert_eq.
Qed.

End Resource.

(** * A small instance

    Concrete collaborators, on which the properties above are exercised. *)

Module Sample.

Abbreviation Val := (@PyVal string string bool string string).
Abbreviation Ev := (@Event string string bool string string string).
Abbreviation W := (@World string string bool string string string nat).

(** A cache that knows every table but "Unknown"; every table has the
    primary key "OrderId". *)
Definition cache_table_info (name : string) (x : nat) : Res (@TableInfo string) * nat :=
  if String.eqb name "Unknown"
  then (Raise (Raised "ClientError" "ResourceNotFoundException"), S x)
  else (Ok (mkTableInfo name ["OrderId"] name), S x).

Definition validate_get_arguments (table_kwargs : bool) : Res unit :=
  if table_kwargs then Ok tt else Raise (Raised "InvalidArgumentError" "AttributesToGet").

Definition encrypt_python_item (item : string) (cfg : Val) (h : Heap) : Res string :=
  if String.eqb item "" then Raise (Raised "EncryptionError" "empty item")
  else Ok ("E." +:+ item).

(** An [encrypt_python_item] that never raises. *)
Definition encrypt_always (item : string) (cfg : Val) (h : Heap) : Res string :=
  Ok ("E." +:+ item).

Definition decrypt_python_item (item : string) (cfg : Val) (h : Heap) : Res string :=
  Ok ("D." +:+ item).

Definition resource_batch_get_item (kwargs : gmap string Val) (x : nat)
  : Res (gmap string Val) * nat :=
  (Ok (<["Responses" := VResponses [("A", ["a1"; "a2"]); ("B", ["b1"])]]>
       (<["UnprocessedKeys" := VOpaque "none"]> ∅)), S x).

Definition resource_batch_write_item (kwargs : gmap string Val)
    (st : gmap positive (gmap string string)) (x : nat)
  : Res Val * nat := (Ok (VOpaque "written"), S x).

Definition resource_Table (name : string) : string := name.
Definition resource_name (table : string) : string := table.

Definition resource_getattr (name : string) : Res Val :=
  if String.eqb name "meta" then Ok (VOpaque "meta") else Raise (AttributeError name).

Definition collection_call (m : Method) (kwargs : gmap string Val) (x : nat)
  : Res (list string) * nat := (Ok ["A"; "B"], S x).

Definition iter_next (it : list string) (x : nat)
  : Res (option (string * list string)) * nat :=
  match it with
  | [] => (Ok None, x)
  | t :: it' => (Ok (Some (t, it')), S x)
  end.

Definition object_names : list string := ["__class__"; "__dict__"; "__init__"; "__repr__"].

Definition dflt : AttributeActions :=
  mkAttributeActions ENCRYPT_AND_SIGN {["OrderId" := ENCRYPT_AND_SIGN]}.

(** The bodies of the requests below: two with an item, one with a key, one
    with an item that [encrypt_python_item] refuses, one without 'Item'. *)
Definition put_a1 : ref := 10%positive.
Definition del_k2 : ref := 11%positive.
Definition put_empty : ref := 12%positive.
Definition put_no_item : ref := 13%positive.
Definition put_b1 : ref := 14%positive.

Definition request_bodies : gmap positive (gmap string string) :=
  <[put_a1 := {["Item" := "a1"]}]>
    (<[del_k2 := {["Key" := "k2"]}]>
       (<[put_empty := {["Item" := ""]}]>
          (<[put_no_item := {["Itm" := "a1"]}]>
             (<[put_b1 := {["Item" := "b1"]}]> ∅)))).

Definition w0 : W := mkWorld {[1%positive := dflt]} request_bodies 0 [].

Definition self : @EncryptedResource string := mkEncryptedResource "provider" 1%positive true.

Definition cfg0 : Val :=
  VCryptoConfig (mkCryptoConfig "other provider" (mkEncryptionContext "ctx") 1%positive).

Definition put_tables : list (string * list (list (string * ref))) :=
  [("A", [[("PutRequest", put_a1)]; [("DeleteRequest", del_k2)]]);
   ("B", [[("PutRequest", put_b1)]])].

Definition put_kwargs : gmap string Val :=
  <["RequestItems" := VWriteItems put_tables]> ∅.

(** One list of requests given for two tables. *)
Definition shared_requests : list (list (string * ref)) := [[("PutRequest", put_a1)]].

Definition shared_tables : list (string * list (list (string * ref))) :=
  [("A", shared_requests); ("B", shared_requests)].

Definition shared_kwargs : gmap string Val :=
  <["RequestItems" := VWriteItems shared_tables]> ∅.

Definition get_kwargs : gmap string Val :=
  <["RequestItems" := VGetItems [("A", true); ("B", true)]]> ∅.

Definition tcm : @EncryptedTablesCollectionManager string := tables self.

Definition put := batch_write_item (TableResource := string)
  resource_batch_write_item cache_table_info encrypt_python_item self.

Definition put_always := batch_write_item (TableResource := string)
  resource_batch_write_item cache_table_info encrypt_always self.

Definition send := send_batch_write (MaterialsProvider := string) (GetSpec := bool)
  (Opaque := string) (TableResource := string) (ContextValues := string)
  resource_batch_write_item.

Definition get := batch_get_item (TableResource := string)
  resource_batch_get_item cache_table_info validate_get_arguments
  decrypt_python_item self.

Definition take := take_n (Item := string) (GetSpec := bool) (Opaque := string)
  resource_name (list string) collection_call iter_next cache_table_info tcm.

(** A batch with an item that [encrypt_python_item] refuses. *)
Definition bad_put_tables : list (string * list (list (string * ref))) :=
  [("A", [[("PutRequest", put_a1)]; [("PutRequest", put_empty)]])].

Definition bad_put_kwargs : gmap string Val :=
  <["RequestItems" := VWriteItems bad_put_tables]> ∅.

Definition override_put_kwargs : gmap string Val :=
  <["crypto_config" := cfg0]> put_kwargs.

Definition override_get_kwargs : gmap string Val :=
  <["crypto_config" := cfg0]> get_kwargs.

(** Keyword arguments for the methods of the tables collection. *)
Definition limit_kwargs : gmap string Val := {["Limit" := VOpaque "2"]}.
Definition method_kwargs : gmap string Val := {["method" := VOpaque "scan"]}.

End Sample.

(** Finds an event in the computed trace. *)
Ltac find_event := vm_compute; repeat first [by constructor 1 | constructor 2].

(** Goes through the elements of the lists of a concrete batch. *)
Ltac elements :=
  repeat (match goal with
          | H : _ ∈ [] |- _ => by apply elem_of_nil in H
          | H : _ ∈ _ :: _ |- _ => apply elem_of_cons in H as [H|H]
          end; simplify_eq).

Lemma crypto_config_index_keys_unprotected_witness :
  exists cfg w' aa,
    _crypto_config Sample.cache_table_info Sample.self "Orders" Sample.w0 = (Ok cfg, w') /\
    heap w' !! cc_attribute_actions cfg = Some aa /\
    action aa "OrderId" = DO_NOTHING /\
    action aa "Total" = ENCRYPT_AND_SIGN.
Proof.
  destruct (crypto_config_index_keys_unprotected
              Sample.cache_table_info Sample.self "Orders" Sample.w0
              (mkTableInfo "Orders" ["OrderId"] "Orders") 1 Sample.dflt
              eq_refl eq_refl)
    as (cfg & w' & aa & Hrun & Haa & Hkeys & Hothers).
  exists cfg, w', aa. split; [exact Hrun|]. split; [exact Haa|]. split.
  - apply Hkeys. simpl. left.
  - rewrite Hothers; [reflexivity|]. simpl. intros Hin.
    apply list_elem_of_singleton in Hin. discriminate.
Defined.

Lemma crypto_config_keeps_default_witness :
  heap (resolve_each Sample.cache_table_info Sample.self
                     ["Orders"; "Orders"; "Unknown"] Sample.w0) !! 1%positive
  = Some Sample.dflt /\
  heap Sample.w0 !! 2%positive = None.
Proof.
  destruct (crypto_config_keeps_default Sample.cache_table_info Sample.self
              "Orders" ["Orders"; "Orders"; "Unknown"] Sample.w0)
    as (_ & _ & Hall & Hfresh).
  split; [exact Hall|].
  exact (proj1 (Hfresh (mkCryptoConfig "provider" (mkEncryptionContext "Orders")
                                       2%positive) eq_refl)).
Defined.

Lemma put_tables_held_once : held_once Sample.put_tables.
Proof.
  split.
  - change (NoDup [Sample.put_a1; Sample.put_b1]).
    repeat constructor; intros H; elements; discriminate.
  - intros name reqs req request_type b Ht Hreq Hentry Hne Hin.
    change (b ∈ [Sample.put_a1; Sample.put_b1]) in Hin.
    unfold Sample.put_tables in Ht. elements; done.
Qed.

(** The claim as the spec states it, for every batch: at a batch that gives
    one list of requests for two tables, the boto3 resource is reached but
    the item it is given is the encryption of the encryption of the item of
    the call. *)
Lemma batch_write_item_encrypts_shared_put_twice :
  EvBatchWrite Sample.shared_kwargs
  ∈ new_events Sample.w0 (Sample.put Sample.shared_kwargs Sample.w0).2 /\
  body_of (bodies (Sample.put Sample.shared_kwargs Sample.w0).2) Sample.put_a1
  = {["Item" := "E.E.a1"]} /\
  ¬ exists w1,
      Sample.put Sample.shared_kwargs Sample.w0 = Sample.send Sample.shared_kwargs w1 /\
      puts_encrypted Sample.cache_table_info Sample.encrypt_python_item
                     Sample.self VNone Sample.shared_tables Sample.w0 w1.
Proof.
  split; [find_event|]. split; [by vm_compute|].
  intros (w1 & Hrun & Hput).
  destruct (Hput "A" Sample.shared_requests [("PutRequest", Sample.put_a1)]
                 "PutRequest" Sample.put_a1) as [_ Henc];
    [constructor 1 | constructor 1 | constructor 1 |].
  destruct (Henc eq_refl) as (item & cfg & h & enc & Hitem & _ & Hres & Hbody).
  vm_compute in Hitem. injection Hitem as <-.
  vm_compute in Hres. injection Hres as <-.
  apply (f_equal (fun r => body_of (bodies r.2) Sample.put_a1 !! "Item")) in Hrun.
  unfold Sample.send in Hrun. rewrite send_batch_write_run in Hrun.
  cbn [snd bodies] in Hrun. rewrite Hbody in Hrun.
  vm_compute in Hrun. discriminate.
Qed.

Lemma batch_write_item_encrypts_puts_witness :
  exists w1,
    Sample.put Sample.put_kwargs Sample.w0 = Sample.send Sample.put_kwargs w1 /\
    body_of (bodies w1) Sample.del_k2 = {["Key" := "k2"]} /\
    body_of (bodies w1) Sample.put_no_item = {["Itm" := "a1"]} /\
    body_of (bodies w1) Sample.put_a1 = {["Item" := "E.a1"]} /\
    body_of (bodies w1) Sample.put_b1 = {["Item" := "E.b1"]}.
Proof.
  destruct (batch_write_item_encrypts_puts
              Sample.resource_batch_write_item Sample.cache_table_info
              Sample.encrypt_python_item Sample.self Sample.put_kwargs Sample.w0
              Sample.put_kwargs)
    as (tables & w1 & Hr & _ & Hrun & Hframe & Hput); [find_event|].
  vm_compute in Hr. injection Hr as <-.
  specialize (Hput put_tables_held_once).
  exists w1. split; [exact Hrun|].
  split.
  { destruct (Hput "A" [[("PutRequest", Sample.put_a1)];
                        [("DeleteRequest", Sample.del_k2)]]
                   [("DeleteRequest", Sample.del_k2)] "DeleteRequest" Sample.del_k2)
      as [Hdel _]; [constructor 1 | constructor 2; constructor 1 | constructor 1 |].
    rewrite Hdel; [reflexivity | discriminate]. }
  split.
  { rewrite Hframe; [reflexivity|].
    change (Sample.put_no_item ∉ [Sample.put_a1; Sample.put_b1]).
    intros H. elements; discriminate. }
  split.
  - destruct (Hput "A" [[("PutRequest", Sample.put_a1)];
                        [("DeleteRequest", Sample.del_k2)]]
                   [("PutRequest", Sample.put_a1)] "PutRequest" Sample.put_a1)
      as [_ Henc]; [constructor 1 | constructor 1 | constructor 1 |].
    destruct (Henc eq_refl) as (item & cfg & h & enc & Hitem & _ & Hres & Hbody).
    vm_compute in Hitem. injection Hitem as <-.
    vm_compute in Hres. injection Hres as <-. rewrite Hbody. by vm_compute.
  - destruct (Hput "B" [[("PutRequest", Sample.put_b1)]]
                   [("PutRequest", Sample.put_b1)] "PutRequest" Sample.put_b1)
      as [_ Henc]; [constructor 2; constructor 1 | constructor 1 | constructor 1 |].
    destruct (Henc eq_refl) as (item & cfg & h & enc & Hitem & _ & Hres & Hbody).
    vm_compute in Hitem. injection Hitem as <-.
    vm_compute in Hres. injection Hres as <-. rewrite Hbody. by vm_compute.
Defined.

Lemma crypto_config_override_used_verbatim_witness :
  (EvBatchGet (delete "crypto_config" Sample.override_get_kwargs)
   ∈ new_events Sample.w0 (Sample.get Sample.override_get_kwargs Sample.w0).2 /\
   exists decrypted,
     (Sample.get Sample.override_get_kwargs Sample.w0).1
     = Ok (<["Responses" := VResponses decrypted]>
           (<["Responses" := VResponses [("A", ["a1"; "a2"]); ("B", ["b1"])]]>
              (<["UnprocessedKeys" := VOpaque "none"]> ∅))) /\
     Forall2 (fun entry entry' : string * list string =>
                entry'.1 = entry.1 /\
                Forall2 (fun item item' =>
                           Sample.decrypt_python_item item Sample.cfg0 (heap Sample.w0)
                           = Ok item')
                        entry.2 entry'.2)
             [("A", ["a1"; "a2"]); ("B", ["b1"])] decrypted) /\
  (exists w1,
     Sample.put_always Sample.override_put_kwargs Sample.w0
     = Sample.send (delete "crypto_config" Sample.override_put_kwargs) w1 /\
     EvBatchWrite (delete "crypto_config" Sample.override_put_kwargs)
     ∈ new_events Sample.w0
         (Sample.put_always Sample.override_put_kwargs Sample.w0).2 /\
     EvEncrypt "a1" Sample.cfg0 ∈ new_events Sample.w0 w1 /\
     exists encrypted,
       Sample.encrypt_always "b1" Sample.cfg0 (heap Sample.w0) = Ok encrypted /\
       body_of (bodies w1) Sample.put_b1
       = <["Item" := encrypted]> (body_of (bodies Sample.w0) Sample.put_b1)).
Proof.
  split.
  - refine (proj1 (proj2 (proj2 (proj2
              (crypto_config_override_used_verbatim
                 Sample.resource_batch_get_item Sample.resource_batch_write_item
                 Sample.cache_table_info Sample.validate_get_arguments
                 Sample.encrypt_always Sample.decrypt_python_item Sample.self
                 Sample.override_get_kwargs Sample.cfg0 Sample.w0 eq_refl _))))
              [("A", true); ("B", true)] _ 1 [("A", ["a1"; "a2"]); ("B", ["b1"])]
              eq_refl _ eq_refl eq_refl _).
    + discriminate.
    + by repeat constructor.
    + intros entry item _ _. by eexists.
  - destruct (proj2 (proj2 (proj2 (proj2
                (crypto_config_override_used_verbatim
                   Sample.resource_batch_get_item Sample.resource_batch_write_item
                   Sample.cache_table_info Sample.validate_get_arguments
                   Sample.encrypt_always Sample.decrypt_python_item Sample.self
                   Sample.override_put_kwargs Sample.cfg0 Sample.w0 eq_refl
                   ltac:(discriminate)))))
                Sample.put_tables eq_refl)
      as (w1 & Hrun & Hsent & _ & _ & Hlogged & _ & Hput).
    + intros b Hb. change (b ∈ [Sample.put_a1; Sample.put_b1]) in Hb.
      elements; by eexists.
    + intros item. by eexists.
    + exists w1. split; [exact Hrun|]. split; [exact Hsent|]. split.
      * apply Hlogged.
        exists "A", [[("PutRequest", Sample.put_a1)]; [("DeleteRequest", Sample.del_k2)]],
               [("PutRequest", Sample.put_a1)], Sample.put_a1.
        split; [constructor 1|]. split; [constructor 1|]. split; [constructor 1|].
        reflexivity.
      * destruct (Hput put_tables_held_once Sample.put_b1)
          as (item & enc & Hitem & Henc & Hbody).
        { change (Sample.put_b1 ∈ [Sample.put_a1; Sample.put_b1]).
          constructor 2. constructor 1. }
        vm_compute in Hitem. injection Hitem as <-. by exists enc.
Defined.

Lemma batch_get_item_validates_first_witness :
  Forall (fun entry : string * bool => Sample.validate_get_arguments entry.2 = Ok tt)
         [("A", true); ("B", true)] /\
  exists rest,
    new_events Sample.w0 (Sample.get Sample.get_kwargs Sample.w0).2
    = [EvValidate true; EvValidate true; EvBatchGet Sample.get_kwargs] ++ rest.
Proof.
  destruct (batch_get_item_validates_first
              Sample.resource_batch_get_item Sample.cache_table_info
              Sample.validate_get_arguments Sample.decrypt_python_item Sample.self
              Sample.get_kwargs Sample.w0 [("A", true); ("B", true)] eq_refl)
    as [Hfirst _].
  destruct (Hfirst Sample.get_kwargs) as [Hvalid [rest Hrest]].
  - vm_compute. do 2 constructor. constructor 1.
  - split; [exact Hvalid|]. exists rest. exact Hrest.
Defined.

Lemma batch_get_item_decrypts_in_place_witness :
  exists decrypted,
    (Sample.get Sample.get_kwargs Sample.w0).1
    = Ok (<["Responses" := VResponses decrypted]>
          (<["UnprocessedKeys" := VOpaque "none"]> ∅)) /\
    length decrypted = 2.
Proof.
  destruct (batch_get_item_decrypts_in_place
              Sample.resource_batch_get_item Sample.cache_table_info
              Sample.validate_get_arguments Sample.decrypt_python_item Sample.self
              Sample.get_kwargs Sample.w0
              (<["Responses" := VResponses [("A", ["D.a1"; "D.a2"]); ("B", ["D.b1"])]]>
                 (<["UnprocessedKeys" := VOpaque "none"]> ∅))
              (Sample.get Sample.get_kwargs Sample.w0).2)
    as (response & x & raw & decrypted & Hget & Hraw & Hdec & _ & Hlen & _).
  - vm_compute. reflexivity.
  - exists [("A", ["D.a1"; "D.a2"]); ("B", ["D.b1"])]. split; reflexivity.
Defined.

Lemma batch_write_item_no_partial_submission_witness :
  (exists e, (Sample.put Sample.bad_put_kwargs Sample.w0).1 = Raise e) /\
  forall kw,
    EvBatchWrite kw ∉ new_events Sample.w0 (Sample.put Sample.bad_put_kwargs Sample.w0).2.
Proof.
  destruct (batch_write_item_no_partial_submission
              Sample.resource_batch_write_item Sample.cache_table_info
              Sample.encrypt_python_item Sample.self Sample.bad_put_kwargs Sample.w0)
    as (_ & _ & Hfail).
  apply (Hfail Sample.bad_put_tables "").
  - reflexivity.
  - exists "A", [[("PutRequest", Sample.put_a1)]; [("PutRequest", Sample.put_empty)]],
           [("PutRequest", Sample.put_empty)], Sample.put_empty.
    split; [constructor 1|]. split; [constructor; constructor 1|].
    split; [constructor 1|reflexivity].
  - intros cfg h encrypted. discriminate.
Defined.

(** The claim as the spec states it, for every keyword argument: called
    with a keyword argument named 'method', [filter] raises [TypeError]; it
    returns no sequence and the collection's [filter] is not called. *)
Lemma collection_methods_reject_parameter_names :
  tables_filter (list string) Sample.tcm Sample.method_kwargs
  = Raise (TypeError "method") /\
  ¬ exists g,
      tables_filter (list string) Sample.tcm Sample.method_kwargs = Ok g /\
      lazy_restartable Sample.resource_name (list string) Sample.collection_call
        Sample.iter_next Sample.cache_table_info Sample.tcm g
        m_filter Sample.method_kwargs.
Proof.
  split; [by vm_compute|]. intros (g & Hg & _). vm_compute in Hg. discriminate.
Qed.

Lemma collection_methods_lazy_restartable_witness :
  exists rest,
    new_events Sample.w0
      (Sample.take 3 (GenCreated (list string) m_filter Sample.limit_kwargs) Sample.w0).2
    = EvCollection m_filter Sample.limit_kwargs :: rest /\
    follows_underlying Sample.tcm 3
      (Sample.take 3 (GenCreated (list string) m_filter Sample.limit_kwargs)
                   Sample.w0).1.1.1
      Exhausted rest.
Proof.
  destruct (proj1 (proj2 (collection_methods_lazy_restartable
              Sample.resource_name (list string) Sample.collection_call
              Sample.iter_next Sample.cache_table_info Sample.tcm Sample.limit_kwargs))
              eq_refl eq_refl)
    as ((g & Hg & _ & Hrun & _) & _).
  injection Hg as <-.
  destruct (Hrun 2 Sample.w0 _ _ _ _ eq_refl) as (rest & Hevs & Hfollows & _).
  exists rest. split; [exact Hevs | exact Hfollows].
Defined.

Lemma undefined_attributes_are_delegated_witness :
  EncryptedResource_getattribute Sample.resource_getattr Sample.object_names "meta"
  = Ok (Wrapped (VOpaque "meta")) /\
  EncryptedResource_getattribute Sample.resource_getattr Sample.object_names "nope"
  = Raise (AttributeError "nope").
Proof.
  split.
  - refine (proj1 (proj1 (undefined_attributes_are_delegated
                            Sample.resource_getattr Sample.resource_getattr
                            Sample.object_names "meta") _) _ eq_refl).
    compute_done.
  - refine (proj1 (proj2 (proj1 (undefined_attributes_are_delegated
                            Sample.resource_getattr Sample.resource_getattr
                            Sample.object_names "nope") _)) _ eq_refl).
    compute_done.
Defined.

Lemma Table_always_looks_up_cache_witness :
  (Table Sample.resource_Table Sample.cache_table_info Sample.self "Unknown"
         (<["table_info" := VTableInfo (mkTableInfo "Unknown" [] "given")]>
            (<["materials_provider" := VMaterialsProvider "other"]> ∅))
         Sample.w0).1
  = Raise (Raised "ClientError" "ResourceNotFoundException").
Proof.
  destruct (Table_always_looks_up_cache
              Sample.resource_Table Sample.cache_table_info Sample.self "Unknown"
              (<["materials_provider" := VMaterialsProvider "other"]> ∅) Sample.w0)
    as (Hignored & _ & _ & Hraise).
  rewrite Hignored. exact (Hraise _ 1 eq_refl).
Defined.

(** * More of the small instance *)

Module SampleMore.

(** Deletes only, for two tables. *)
Definition delete_tables : list (string * list (list (string * ref))) :=
  [("A", [[("DeleteRequest", Sample.del_k2)]]); ("B", [])].

Definition delete_kwargs : gmap string Sample.Val :=
  <["RequestItems" := VWriteItems delete_tables]> ∅.

(** A 'PutRequest' without 'Item'. *)
Definition no_item_tables : list (string * list (list (string * ref))) :=
  [("A", [[("PutRequest", Sample.put_no_item)]])].

Definition no_item_kwargs : gmap string Sample.Val :=
  <["crypto_config" := Sample.cfg0]>
    (<["RequestItems" := VWriteItems no_item_tables]> ∅).

(** A boto3 [batch_get_item] whose response has no 'Responses'. *)
Definition get_nothing (kwargs : gmap string Sample.Val) (x : nat)
  : Res (gmap string Sample.Val) * nat :=
  (Ok (<["UnprocessedKeys" := VOpaque "all"]> ∅), S x).

(** A boto3 [batch_get_item] that raises. *)
Definition get_raises (kwargs : gmap string Sample.Val) (x : nat)
  : Res (gmap string Sample.Val) * nat :=
  (Raise (Raised "ClientError" "ProvisionedThroughputExceededException"), S x).

Definition get_from (client : gmap string Sample.Val -> nat -> Res (gmap string Sample.Val) * nat) :=
  batch_get_item (TableResource := string)
    client Sample.cache_table_info Sample.validate_get_arguments
    Sample.decrypt_python_item Sample.self.

(** The generator that [all()] returns. *)
Definition all_tables :=
  GenCreated (MaterialsProvider := string) (Item := string) (GetSpec := bool)
             (Opaque := string) (ContextValues := string) (list string) m_all ∅.

End SampleMore.

Lemma batch_methods_keep_objects_witness :
  heap (Sample.get Sample.get_kwargs Sample.w0).2 !! 1%positive = Some Sample.dflt /\
  heap (Sample.put Sample.put_kwargs Sample.w0).2 !! 1%positive = Some Sample.dflt.
Proof.
  split.
  - exact (proj1 (batch_methods_keep_objects
             Sample.resource_batch_get_item Sample.resource_batch_write_item
             Sample.cache_table_info Sample.validate_get_arguments
             Sample.encrypt_python_item Sample.decrypt_python_item
             Sample.self Sample.get_kwargs Sample.w0 1%positive
             (ex_intro _ Sample.dflt eq_refl))).
  - exact (proj2 (batch_methods_keep_objects
             Sample.resource_batch_get_item Sample.resource_batch_write_item
             Sample.cache_table_info Sample.validate_get_arguments
             Sample.encrypt_python_item Sample.decrypt_python_item
             Sample.self Sample.put_kwargs Sample.w0 1%positive
             (ex_intro _ Sample.dflt eq_refl))).
Defined.

Lemma crypto_config_never_forwarded_witness :
  Sample.put_kwargs !! "crypto_config" = None.
Proof.
  refine (proj1 (proj2 (crypto_config_never_forwarded
             Sample.resource_batch_get_item Sample.resource_batch_write_item
             Sample.cache_table_info Sample.validate_get_arguments
             Sample.encrypt_python_item Sample.decrypt_python_item
             Sample.self Sample.override_put_kwargs Sample.w0)
           Sample.put_kwargs _)).
  find_event.
Defined.

Lemma missing_RequestItems_raises_KeyError_witness :
  Sample.get (<["crypto_config" := Sample.cfg0]> ∅) Sample.w0
  = (Raise (KeyError "RequestItems"), Sample.w0) /\
  Sample.put (<["crypto_config" := Sample.cfg0]> ∅) Sample.w0
  = (Raise (KeyError "RequestItems"), Sample.w0).
Proof.
  exact (missing_RequestItems_raises_KeyError
           Sample.resource_batch_get_item Sample.resource_batch_write_item
           Sample.cache_table_info Sample.validate_get_arguments
           Sample.encrypt_python_item Sample.decrypt_python_item
           Sample.self (<["crypto_config" := Sample.cfg0]> ∅) Sample.w0 eq_refl).
Defined.

Lemma batch_write_item_looks_up_every_table_witness :
  lookups (new_events Sample.w0 (Sample.put SampleMore.delete_kwargs Sample.w0).2)
  = ["A"; "B"].
Proof.
  refine (proj2 (batch_write_item_looks_up_every_table
             Sample.resource_batch_write_item Sample.cache_table_info
             Sample.encrypt_python_item Sample.self SampleMore.delete_kwargs
             Sample.w0 SampleMore.delete_tables eq_refl eq_refl)
           SampleMore.delete_kwargs _).
  find_event.
Defined.

Lemma batch_get_item_looks_up_response_tables_witness :
  exists response x raw,
    Sample.resource_batch_get_item (delete "crypto_config" Sample.get_kwargs) 0
    = (Ok response, x) /\
    response !! "Responses" = Some (VResponses raw) /\
    lookups (new_events Sample.w0 (Sample.get Sample.get_kwargs Sample.w0).2)
    = map fst raw.
Proof.
  refine (batch_get_item_looks_up_response_tables
            Sample.resource_batch_get_item Sample.cache_table_info
            Sample.validate_get_arguments Sample.decrypt_python_item
            Sample.self Sample.get_kwargs Sample.w0
            (<["Responses" := VResponses [("A", ["D.a1"; "D.a2"]); ("B", ["D.b1"])]]>
               (<["UnprocessedKeys" := VOpaque "none"]> ∅))
            (Sample.get Sample.get_kwargs Sample.w0).2 _ eq_refl).
  vm_compute. reflexivity.
Defined.

Lemma delete_only_batch_is_forwarded_as_given_witness :
  Sample.put (<["crypto_config" := Sample.cfg0]> SampleMore.delete_kwargs) Sample.w0
  = (Ok (VOpaque "written"),
     mkWorld (heap Sample.w0) (bodies Sample.w0) 1
             [EvBatchWrite SampleMore.delete_kwargs]).
Proof.
  unfold Sample.put.
  rewrite (proj2 (proj2 (proj2 (delete_only_batch_is_forwarded_as_given
             Sample.resource_batch_write_item Sample.cache_table_info
             Sample.encrypt_python_item Sample.self
             (<["crypto_config" := Sample.cfg0]> SampleMore.delete_kwargs)
             Sample.w0 SampleMore.delete_tables ltac:(by vm_compute)
             ltac:(repeat constructor; discriminate))))
           Sample.cfg0 ltac:(by vm_compute) ltac:(discriminate)).
  vm_compute. reflexivity.
Defined.

Lemma put_request_without_Item_raises_witness :
  (Sample.put_always SampleMore.no_item_kwargs Sample.w0).1
  = Raise (KeyError "Item").
Proof.
  refine (proj2 (proj2 (put_request_without_Item_raises
             Sample.resource_batch_write_item Sample.cache_table_info
             Sample.encrypt_always Sample.self SampleMore.no_item_kwargs
             Sample.w0 SampleMore.no_item_tables "A"
             [[("PutRequest", Sample.put_no_item)]]
             [("PutRequest", Sample.put_no_item)] Sample.put_no_item
             eq_refl _ _ _ eq_refl))
           Sample.cfg0 eq_refl _ _).
  - constructor 1.
  - constructor 1.
  - constructor 1.
  - discriminate.
  - intros item cfg h. by exists ("E." +:+ item).
Defined.

Lemma response_without_Responses_raises_KeyError_witness :
  (SampleMore.get_from SampleMore.get_nothing Sample.get_kwargs Sample.w0).1
  = Raise (KeyError "Responses").
Proof.
  unfold SampleMore.get_from.
  rewrite (response_without_Responses_raises_KeyError
             SampleMore.get_nothing Sample.cache_table_info
             Sample.validate_get_arguments Sample.decrypt_python_item
             Sample.self Sample.get_kwargs Sample.w0 [("A", true); ("B", true)]
             (<["UnprocessedKeys" := VOpaque "all"]> ∅) 1
             eq_refl ltac:(repeat constructor) eq_refl eq_refl).
  reflexivity.
Defined.

Lemma boto3_outcome_is_passed_on_witness :
  (SampleMore.get_from SampleMore.get_raises Sample.get_kwargs Sample.w0).1
  = Raise (Raised "ClientError" "ProvisionedThroughputExceededException").
Proof.
  exact (proj1 (proj1 (boto3_outcome_is_passed_on
             SampleMore.get_raises Sample.resource_batch_write_item
             Sample.cache_table_info Sample.validate_get_arguments
             Sample.encrypt_python_item Sample.decrypt_python_item
             Sample.self Sample.get_kwargs Sample.w0)
           [("A", true); ("B", true)] _ 1 eq_refl ltac:(repeat constructor) eq_refl)).
Defined.



Lemma ended_enumeration_cannot_be_resumed_witness :
  Sample.take 2 (GenFinished (list string))
              (Sample.take 3 SampleMore.all_tables Sample.w0).2
  = ([], Exhausted, GenFinished (list string),
     (Sample.take 3 SampleMore.all_tables Sample.w0).2).
Proof.
  refine (proj2 (ended_enumeration_cannot_be_resumed
           Sample.resource_name (list string) Sample.collection_call
           Sample.iter_next Sample.cache_table_info Sample.tcm
           3 SampleMore.all_tables Sample.w0
           _ Exhausted (GenFinished (list string)) _ eq_refl ltac:(discriminate)) 1).
Defined.

Lemma collection_tables_carry_their_schema_witness :
  Forall (schema_of_own_table Sample.resource_name Sample.cache_table_info)
         (Sample.take 3 SampleMore.all_tables Sample.w0).1.1.1.
Proof.
  exact (proj1 (collection_tables_carry_their_schema
           Sample.resource_Table Sample.resource_name (list string)
           Sample.collection_call Sample.iter_next Sample.cache_table_info
           Sample.tcm 3 SampleMore.all_tables Sample.w0)).
Defined.

Lemma resolution_does_not_depend_on_earlier_ones_witness :
  exists cfg w',
    _crypto_config Sample.cache_table_info Sample.self "B"
      (resolve_each Sample.cache_table_info Sample.self ["A"; "Unknown"; "B"] Sample.w0)
    = (Ok cfg, w') /\
    heap w' !! cc_attribute_actions cfg
    = Some (set_index_keys_value ["OrderId"] Sample.dflt).
Proof.
  destruct (resolution_does_not_depend_on_earlier_ones
              Sample.cache_table_info Sample.self ["A"; "Unknown"; "B"] "B" Sample.w0
              Sample.dflt (mkTableInfo "B" ["OrderId"] "B") 4 eq_refl eq_refl)
    as (cfg & w' & Hrun & Haa & _).
  by exists cfg, w'.
Defined.
